(** * Pallet-logistics back end: storage ledger, price timeline and reports

    A shallow embedding of the GraphQL resolvers of the back end
    ([graphql/storage.ts], [graphql/location.ts], [graphql/report.ts] and
    [graphql/util/reportUtils.ts]) together with the relational queries they
    send to the database, and the properties of the temporal storage ledger
    and of the reporting engine that hold of them.

    Conventions of the embedding:
    - a table is the list of its rows in insertion order; a [findAll]
      without [ORDER BY] yields the rows in table order;
    - JavaScript numbers holding integers are [Z]; a [Date] and a timestamp
      column are the [Z] number of milliseconds since the epoch (the value
      [Date.prototype.valueOf] compares);
    - the [Date] methods that read local time take the time zone of the
      server as a parameter, a [TimeZone.t];
    - a resolver that can [throw] returns an [outcome]; a mutation also
      returns the database it leaves behind. *)

From Stdlib Require Import ZArith QArith Lia.
From Equations Require Import Equations.
From stdpp Require Import list strings sorting pretty.

#[local] Open Scope Z_scope.

(** ** Outcomes of a resolver *)

(** [Returned a] is a resolved promise, [Raised m] a thrown [Error] whose
    message is [m]. *)
Inductive outcome (A : Type) : Type :=
| Returned (a : A)
| Raised (message : string).
Arguments Returned {A} a.
Arguments Raised {A} message.

Definition is_Raised {A} (o : outcome A) : Prop :=
  match o with Raised _ => True | Returned _ => False end.

(** [try { body } catch (error) { throw new Error(message) }], where the
    new message may quote the caught error. *)
Definition catch_rethrow {A} (body : outcome A) (message : string → string)
  : outcome A :=
  match body with
  | Returned a => Returned a
  | Raised error => Raised (message error)
  end.

(** ** Data model *)

#[global] Instance Q_eq_dec : EqDecision Q.
Proof. solve_decision. Defined.

(** type Storage of [graphql/storage.ts]: one snapshot of the ledger. *)
Module Storage.
Record t : Type := mk {
  storageId : Z;
  locationId : Z;
  productId : Z;
  palletAmount : Z;
  createdAt : Z
}.
#[global] Instance eq_dec : EqDecision t.
Proof. solve_decision. Defined.
End Storage.

(** type LocationPrice of [graphql/location.ts] and [model/LocationPrice.ts];
    the FLOAT price is only carried, never computed with. *)
Module LocationPrice.
Record t : Type := mk {
  locationPriceId : Z;
  locationId : Z;
  price : Q;
  validFrom : Z
}.
#[global] Instance eq_dec : EqDecision t.
Proof. solve_decision. Defined.
End LocationPrice.

(** type Product of [graphql/order.ts]. *)
Module Product.
Record t : Type := mk {
  productId : Z;
  productName : string;
  productAmount : Z
}.
#[global] Instance eq_dec : EqDecision t.
Proof. solve_decision. Defined.
End Product.

(** type Location of [graphql/location.ts]. The two association fields are
    empty on a table row and filled by an [include] or by the report
    resolver; [locationPrices] is [undefined] ([None]) until then. *)
Module Location.
Record t : Type := mk {
  locationId : Z;
  locationName : string;
  address : string;
  postCode : string;
  city : string;
  locationType : string;
  locationPrices : option (list LocationPrice.t);
  storages : list Storage.t
}.
Definition set_storages (l : t) (ss : list Storage.t) : t :=
  mk (locationId l) (locationName l) (address l) (postCode l) (city l)
     (locationType l) (locationPrices l) ss.
Definition set_locationPrices (l : t) (ps : option (list LocationPrice.t)) : t :=
  mk (locationId l) (locationName l) (address l) (postCode l) (city l)
     (locationType l) ps (storages l).
End Location.

(** type Order and type OrderRow of [graphql/order.ts]. *)
Module Order.
Record t : Type := mk {
  orderId : Z;
  locationId : Z;
  status : string
}.
End Order.

Module OrderRow.
Record t : Type := mk {
  orderId : Z;
  productId : Z;
  palletAmount : Z
}.
End OrderRow.

(** The tables the resolvers read and write, named as in the SQL text, and
    the sequence that numbers new storage rows. *)
Record Database : Type := mkDatabase {
  location : list Location.t;
  product : list Product.t;
  storage : list Storage.t;
  locationPrice : list LocationPrice.t;
  order : list Order.t;
  orderRow : list OrderRow.t;
  storageSeq : Z
}.

Definition Kasittelylaitos : string := "Käsittelylaitos".
Definition Avattu : string := "Avattu".

(** ** Relational helpers *)

(** [MAX(column)] over the selected rows: NULL ([None]) over no row. *)
Definition sql_max (column : list Z) : option Z :=
  match column with
  | [] => None
  | x :: rest => Some (foldr Z.max x rest)
  end.

(** [Model.findByPk(id)]. *)
Definition Location_findByPk (db : Database) (id : Z) : option Location.t :=
  snd <$> list_find (λ l, Location.locationId l = id) (location db).

Definition Product_findByPk (db : Database) (id : Z) : option Product.t :=
  snd <$> list_find (λ p, Product.productId p = id) (product db).

Definition Order_findByPk (db : Database) (id : Z) : option Order.t :=
  snd <$> list_find (λ o, Order.orderId o = id) (order db).

(** [Array.prototype.find]. *)
Definition Array_find {A} (P : A → Prop) `{∀ x, Decision (P x)} (l : list A)
  : option A :=
  snd <$> list_find P l.

(** [storage s JOIN location l ON s."locationId" = l."locationId"
    WHERE "locationType" = 'Käsittelylaitos'], and the
    [include: { model: Location, where: { locationType } }] of a [findAll]:
    the snapshot belongs to a processing facility. *)
Definition atFacility (db : Database) (s : Storage.t) : Prop :=
  Location.locationType <$> Location_findByPk db (Storage.locationId s)
  = Some Kasittelylaitos.

#[global] Instance atFacility_dec db s : Decision (atFacility db s).
Proof. unfold atFacility. apply _. Defined.

(** [SELECT "productId", MAX("createdAt") FROM rows GROUP BY "productId"]. *)
Definition maxCreatedAtByProduct (rows : list Storage.t) : list (Z * option Z) :=
  (λ p, (p, sql_max (Storage.createdAt <$>
                       filter (λ s, Storage.productId s = p) rows)))
    <$> remove_dups (Storage.productId <$> rows).

(** [(storage."productId", storage."createdAt") IN (subquery)]. *)
Definition inLatest (latest : list (Z * option Z)) (s : Storage.t) : Prop :=
  (Storage.productId s, Some (Storage.createdAt s)) ∈ latest.

#[global] Instance inLatest_dec latest s : Decision (inLatest latest s).
Proof. unfold inLatest. apply _. Defined.

(** ** The price query of the report resolver ([graphql/report.ts]) *)

(** The correlated subquery
    [SELECT MAX(lp2."validFrom") FROM "locationPrice" lp2
     WHERE lp2."validFrom" <= :startDate AND lp2."locationId" = lp."locationId"]. *)
Definition maxValidFrom (table : list LocationPrice.t) (locationId startDate : Z)
  : option Z :=
  sql_max (LocationPrice.validFrom <$>
             filter (λ lp2, LocationPrice.validFrom lp2 ≤ startDate
                            ∧ LocationPrice.locationId lp2 = locationId) table).

(** First branch: prices that are valid on the start date. *)
Definition pricesValidAtStart (table : list LocationPrice.t)
    (locationIds : list Z) (startDate : Z) : list LocationPrice.t :=
  filter (λ lp, Some (LocationPrice.validFrom lp)
                  = maxValidFrom table (LocationPrice.locationId lp) startDate
                ∧ LocationPrice.locationId lp ∈ locationIds) table.

(** Second branch: price changes within the date range. *)
Definition priceChangesWithin (table : list LocationPrice.t)
    (locationIds : list Z) (startDate endDate : Z) : list LocationPrice.t :=
  filter (λ lp, startDate ≤ LocationPrice.validFrom lp
                ∧ LocationPrice.validFrom lp ≤ endDate
                ∧ LocationPrice.locationId lp ∈ locationIds) table.

(** [priceQuery]: the [UNION] of the two branches, which keeps one copy of
    each row. *)
Definition priceQuery (table : list LocationPrice.t)
    (locationIds : list Z) (startDate endDate : Z) : list LocationPrice.t :=
  remove_dups (pricesValidAtStart table locationIds startDate
               ++ priceChangesWithin table locationIds startDate endDate).

(** ** Storage resolvers ([graphql/storage.ts]) *)

(** The row objects handed to [Storage.bulkCreate] and [Storage.create]. *)
Module NewStorage.
Record t : Type := mk {
  locationId : Z;
  productId : Z;
  palletAmount : Z
}.
End NewStorage.

(** input StorageRowInput and input StorageInput. *)
Module StorageRowInput.
Record t : Type := mk {
  productId : Z;
  palletAmount : Z
}.
End StorageRowInput.

Module StorageInput.
Record t : Type := mk {
  locationId : Z;
  storageRows : list StorageRowInput.t
}.
End StorageInput.

(** [{ ...storage, palletAmount: amount }]. *)
Definition Storage_with_palletAmount (s : Storage.t) (amount : Z) : Storage.t :=
  Storage.mk (Storage.storageId s) (Storage.locationId s) (Storage.productId s)
             amount (Storage.createdAt s).

(** [Storage.bulkCreate(rows)]: every row is inserted after the existing
    ones, numbered by the sequence, with the one [createdAt] of the call. *)
Definition Storage_bulkCreate (now : Z) (rows : list NewStorage.t) (db : Database)
  : Database :=
  mkDatabase (location db) (product db)
    (storage db ++
       imap (λ i row, Storage.mk (storageSeq db + Z.of_nat i)
                        (NewStorage.locationId row) (NewStorage.productId row)
                        (NewStorage.palletAmount row) now) rows)
    (locationPrice db) (order db) (orderRow db)
    (storageSeq db + Z.of_nat (length rows)).

(** [Storage.create(row)]: the one row is inserted after the existing ones,
    and returned. *)
Definition Storage_create (now : Z) (row : NewStorage.t) (db : Database)
  : Storage.t * Database :=
  let newStorage :=
    Storage.mk (storageSeq db) (NewStorage.locationId row)
               (NewStorage.productId row) (NewStorage.palletAmount row) now in
  (newStorage,
   mkDatabase (location db) (product db) (storage db ++ [newStorage])
     (locationPrice db) (order db) (orderRow db) (storageSeq db + 1)).

(** [order: [['productId', 'ASC']]]. *)
Definition productIdAsc (a b : Storage.t) : Prop :=
  Storage.productId a ≤ Storage.productId b.

#[global] Instance productIdAsc_dec : RelDecision productIdAsc.
Proof. intros a b. unfold productIdAsc. apply _. Defined.

(** The first [findAll] of [availableStorages]: the current storages in the
    processing facilities, by ascending [productId]. *)
Definition currentFacilityStorages (db : Database) : list Storage.t :=
  merge_sort productIdAsc
    (filter (λ s, atFacility db s
                  ∧ inLatest (maxCreatedAtByProduct
                                (filter (atFacility db) (storage db))) s)
            (storage db)).

(** [include: { model: Order, where: { status: 'Avattu' } }]. *)
Definition orderIsOpen (db : Database) (row : OrderRow.t) : Prop :=
  Order.status <$> Order_findByPk db (OrderRow.orderId row) = Some Avattu.

#[global] Instance orderIsOpen_dec db row : Decision (orderIsOpen db row).
Proof. unfold orderIsOpen. apply _. Defined.

(** The second [findAll] of [availableStorages]: the open order rows. *)
Definition openOrderRows (db : Database) : list OrderRow.t :=
  filter (orderIsOpen db) (orderRow db).

(** The [findAll] of [collectPallets] and [addPallets]: the rows whose
    (productId, createdAt) is the latest of a product at [locationId]. The
    outer query has no filter of its own on the location. *)
Definition currentStorages (db : Database) (locationId : Z) : list Storage.t :=
  filter (inLatest (maxCreatedAtByProduct
                      (filter (λ s, Storage.locationId s = locationId)
                              (storage db))))
         (storage db).

Section Resolvers.

(** The request context and the checks of [util/authorizationChecks]:
    [None] when the check passes, [Some m] when it throws [Error(m)]. *)
Variable MyContext : Type.
Variable checkHasRole : MyContext → option string.
Variable checkAdminOrOwner : MyContext → Z → option string.

Definition allStorages (context : MyContext) (db : Database)
  : outcome (list Storage.t) :=
  match checkHasRole context with
  | Some m => Raised m
  | None => catch_rethrow (Returned (storage db))
                            (λ _, "Error retrieving all storages")
  end.

(** storages available for ordering: storages - orders = available pallets. *)
Definition availableStorages (context : MyContext) (db : Database)
  : outcome (list Storage.t) :=
  match checkHasRole context with
  | Some m => Raised m
  | None =>
      let storages := currentFacilityStorages db in
      let orderRows := openOrderRows db in
      let availableStorages :=
        (λ storage,
           let rows := filter (λ row, OrderRow.productId row
                                      = Storage.productId storage) orderRows in
           let amount := foldl (λ total row, total + OrderRow.palletAmount row)
                               0 rows in
           Storage_with_palletAmount storage
             (Storage.palletAmount storage - amount)) <$> storages in
      catch_rethrow (Returned availableStorages)
        (λ error, "Error retrieving available pallets: Error: " +:+ error)
  end.

Definition collectPallets (context : MyContext) (now : Z)
    (storageInput : StorageInput.t) (db : Database)
  : outcome (option NewStorage.t) * Database :=
  match checkHasRole context with
  | Some m => (Raised m, db)
  | None =>
      let storages := currentStorages db (StorageInput.locationId storageInput) in
      let rows :=
        (λ row,
           let storage := Array_find (λ storage, Storage.productId storage
                                        = StorageRowInput.productId row) storages in
           NewStorage.mk (StorageInput.locationId storageInput)
             (StorageRowInput.productId row)
             match storage with
             | Some s =>
                 if decide (Storage.palletAmount s ≠ 0)
                 then Storage.palletAmount s + StorageRowInput.palletAmount row
                 else StorageRowInput.palletAmount row
             | None => StorageRowInput.palletAmount row
             end) <$> StorageInput.storageRows storageInput in
      (catch_rethrow (Returned (head rows)) (λ _, "Error: addPallets"),
       Storage_bulkCreate now rows db)
  end.

Definition addPallets (context : MyContext) (now : Z)
    (storageInput : StorageInput.t) (db : Database)
  : outcome (option NewStorage.t) * Database :=
  match checkHasRole context with
  | Some m => (Raised m, db)
  | None =>
      let storages := currentStorages db (StorageInput.locationId storageInput) in
      let rows :=
        (λ row,
           let storage := Array_find (λ storage, Storage.productId storage
                                        = StorageRowInput.productId row) storages in
           NewStorage.mk (StorageInput.locationId storageInput)
             (StorageRowInput.productId row)
             (StorageRowInput.palletAmount row))
          <$> StorageInput.storageRows storageInput in
      (catch_rethrow (Returned (head rows)) (λ _, "Error: addPallets"),
       Storage_bulkCreate now rows db)
  end.

(** *** [addStorageToLocation] of [graphql/location.ts] *)

(** The body of the [try] block. *)
Definition addStorageToLocation_try (now locationId productId palletAmount : Z)
    (db : Database) : outcome Storage.t * Database :=
  match Location_findByPk db locationId, Product_findByPk db productId with
  | Some _, Some _ =>
      let existingStorage :=
        Array_find (λ s, Storage.locationId s = locationId
                         ∧ Storage.productId s = productId) (storage db) in
      match existingStorage with
      | Some _ => (Raised "Product already exists for this Location", db)
      | None =>
          let '(newStorage, db') :=
            Storage_create now
              (NewStorage.mk locationId productId palletAmount) db in
          (Returned newStorage, db')
      end
  | _, _ => (Raised "Location or Product not found", db)
  end.

Definition addStorageToLocation (context : MyContext)
    (now locationId productId palletAmount : Z) (db : Database)
  : outcome Storage.t * Database :=
  match checkAdminOrOwner context locationId with
  | Some m => (Raised m, db)
  | None =>
      let '(result, db') :=
        addStorageToLocation_try now locationId productId palletAmount db in
      (catch_rethrow result (λ _, "Error adding Storage to Location"), db')
  end.

End Resolvers.

(** ** The latest storages of [locationsWithStorages] ([graphql/location.ts]) *)

(** [ORDER BY s."createdAt" DESC] inside a partition. *)
Definition createdAtDesc (a b : Storage.t) : Prop :=
  Storage.createdAt b ≤ Storage.createdAt a.

#[global] Instance createdAtDesc_dec : RelDecision createdAtDesc.
Proof. intros a b. unfold createdAtDesc. apply _. Defined.

(** The rows of [storage s JOIN location l ON s."locationId" = l."locationId"]. *)
Definition storageJoinLocation (db : Database) : list Storage.t :=
  filter (λ s, is_Some (Location_findByPk db (Storage.locationId s))) (storage db).

(** The subquery: the rows numbered [rn = 1] by
    [ROW_NUMBER() OVER (PARTITION BY s."productId", s."locationId"
                        ORDER BY s."createdAt" DESC)],
    projected on (productId, locationId, createdAt). *)
Definition firstRowPerPartition (db : Database) : list (Z * Z * Z) :=
  let joined := storageJoinLocation db in
  omap (λ key : Z * Z,
          (λ s, (Storage.productId s, Storage.locationId s, Storage.createdAt s))
            <$> head (merge_sort createdAtDesc
                        (filter (λ s, Storage.productId s = key.1
                                      ∧ Storage.locationId s = key.2) joined)))
       (remove_dups ((λ s, (Storage.productId s, Storage.locationId s)) <$> joined)).

(** The Storage rows included with the location [locationId]:
    [("productId", "location"."locationId", "createdAt") IN (subquery)]. *)
Definition latestStoragesOf (db : Database) (locationId : Z) : list Storage.t :=
  filter (λ s, Storage.locationId s = locationId
               ∧ (Storage.productId s, locationId, Storage.createdAt s)
                 ∈ firstRowPerPartition db)
         (storage db).

(** ** Reports ([graphql/report.ts], [graphql/util/reportUtils.ts]) *)

Module ProductReport.
Record t : Type := mk {
  product : Product.t;
  palletAmount : Z;
  cost : Z
}.
End ProductReport.

(** [date] holds the time value that [d.toISOString()] prints. *)
Module DailyReport.
Record t : Type := mk {
  date : Z;
  productReports : list ProductReport.t;
  totalDailyPallets : Z;
  totalDailyCost : Z
}.
End DailyReport.

Module LocationReport.
Record t : Type := mk {
  location : Location.t;
  dailyReports : list DailyReport.t;
  totalCost : Z
}.
End LocationReport.

Module Report.
Record t : Type := mk {
  locationReports : list LocationReport.t
}.
End Report.

(** input ReportInput, with both date strings already read by [new Date]. *)
Module ReportInput.
Record t : Type := mk {
  startDate : Z;
  endDate : Z;
  locationIds : list Z
}.
End ReportInput.

(** [msPerDay] of ECMAScript: the milliseconds of a day of 24 hours. *)
Definition msPerDay : Z := 86400000.

(** The time zone of the server, as the [Date] methods read it through
    ECMAScript's [LocalTZA]: the offset of local time from UTC, in
    milliseconds, in effect at a time value [t] ([LocalTZA(t, true)]), and
    the offset by which a local time value is read back
    ([LocalTZA(t, false)]; a local time that a clock change repeats or
    skips is read with the offset before the change). The clock changes of
    a zone are shorter than a day: the same local time of day on the next
    local day is a later instant. *)
Module TimeZone.
Record t : Type := mk {
  offsetAt : Z → Z;
  offsetOfLocal : Z → Z;
  nextDay_later :
    ∀ d, d < d + offsetAt d + msPerDay
             - offsetOfLocal (d + offsetAt d + msPerDay)
}.
End TimeZone.

(** [LocalTime(t)] and [UTC(t)] of ECMAScript. *)
Definition LocalTime (zone : TimeZone.t) (t : Z) : Z :=
  t + TimeZone.offsetAt zone t.

Definition UTC (zone : TimeZone.t) (t : Z) : Z :=
  t - TimeZone.offsetOfLocal zone t.

(** [d.setDate(d.getDate() + 1)]: the day of the month of the local time of
    [d] moves on by one ([MakeDay] carries it into the next month), the
    local time of day is kept, and the local time so made is read back as
    a time value. *)
Definition setDate_next (zone : TimeZone.t) (d : Z) : Z :=
  UTC zone (LocalTime zone d + msPerDay).

(** create a product report for each pallet type (product). *)
Definition createProductReports (location : Location.t) (date : Z)
    (products : list Product.t) : list ProductReport.t :=
  (λ product, ProductReport.mk product 5 25) <$> products.

(** The [for] loop of [createDailyReports], entered with the date [d]. *)
Equations? dailyReportsFrom (zone : TimeZone.t) (endDate : Z)
    (location : Location.t) (products : list Product.t) (d : Z)
    : list DailyReport.t
    by wf (Z.to_nat (endDate + 1 - d)) lt :=
  dailyReportsFrom zone endDate location products d
    with decide (d ≤ endDate) => {
    | left _ :=
        let productReports := createProductReports location d products in
        let totalDailyPallets :=
          foldl (λ total report, total + ProductReport.palletAmount report)
                0 productReports in
        let totalDailyCost :=
          foldl (λ total report, total + ProductReport.cost report)
                0 productReports in
        DailyReport.mk d productReports totalDailyPallets totalDailyCost
          :: dailyReportsFrom zone endDate location products
               (setDate_next zone d);
    | right _ := [] }.
Proof.
  pose proof (TimeZone.nextDay_later zone d).
  unfold setDate_next, UTC, LocalTime. lia.
Qed.

(** create a daily report for each date in the given range. *)
Definition createDailyReports (zone : TimeZone.t) (db : Database)
    (startDate endDate : Z) (location : Location.t) : list DailyReport.t :=
  dailyReportsFrom zone endDate location (product db) startDate.

(** One step of the [forEach] that adds prices to their locations: the
    price is pushed on the first location with its [locationId]. *)
Fixpoint pushLocationPrice (locationPrice : LocationPrice.t)
    (locations : list Location.t) : list Location.t :=
  match locations with
  | [] => []
  | l :: rest =>
      if decide (Location.locationId l = LocationPrice.locationId locationPrice)
      then Location.set_locationPrices l
             (Some (default [] (Location.locationPrices l) ++ [locationPrice]))
           :: rest
      else l :: pushLocationPrice locationPrice rest
  end.

(** The locations of the [report] query: the matching locations with
    their storages, then with the valid prices added to their respective
    locations. *)
Definition reportLocations (input : ReportInput.t) (db : Database)
  : list Location.t :=
  let locationIds := ReportInput.locationIds input in
  let locations :=
    (λ l, Location.set_storages l
            (filter (λ s, Storage.locationId s = Location.locationId l)
                    (storage db)))
      <$> filter (λ l, Location.locationId l ∈ locationIds) (location db) in
  let locationPrices :=
    priceQuery (locationPrice db) locationIds
               (ReportInput.startDate input) (ReportInput.endDate input) in
  foldl (λ locations locationPrice, pushLocationPrice locationPrice locations)
        locations locationPrices.

(** The [report] query: go through all locations, create a daily report
    for each date and calculate the total cost of the location. *)
Definition report (zone : TimeZone.t) (input : ReportInput.t) (db : Database)
  : outcome Report.t :=
  let startDate := ReportInput.startDate input in
  let endDate := ReportInput.endDate input in
  let locations := reportLocations input db in
  let locationReports :=
    (λ location,
       let dailyReports :=
         createDailyReports zone db startDate endDate location in
       let totalCost :=
         foldl (λ total report, total + DailyReport.totalDailyCost report)
               0 dailyReports in
       LocationReport.mk location dailyReports totalCost) <$> locations in
  Returned (Report.mk locationReports).

(** ** Requests served against one database *)

Inductive request : Type :=
| AllStorages
| AvailableStorages
| CollectPallets (now : Z) (storageInput : StorageInput.t)
| AddPallets (now : Z) (storageInput : StorageInput.t)
| AddStorageToLocation (now locationId productId palletAmount : Z)
| ReportQuery (input : ReportInput.t).

Section Server.

Variable MyContext : Type.
Variable checkHasRole : MyContext → option string.
Variable checkAdminOrOwner : MyContext → Z → option string.

(** The database a request leaves behind; a query leaves it as it is. *)
Definition serve (context : MyContext) (db : Database) (r : request) : Database :=
  match r with
  | AllStorages | AvailableStorages | ReportQuery _ => db
  | CollectPallets now storageInput =>
      (collectPallets MyContext checkHasRole context now storageInput db).2
  | AddPallets now storageInput =>
      (addPallets MyContext checkHasRole context now storageInput db).2
  | AddStorageToLocation now locationId productId palletAmount =>
      (addStorageToLocation MyContext checkAdminOrOwner context
         now locationId productId palletAmount db).2
  end.

(** The requests of a run, each with the context it comes with, served in
    order. *)
Definition serveAll (db : Database) (run : list (MyContext * request))
  : Database :=
  foldl (λ db r, serve r.1 db r.2) db run.

End Server.

(** * Vocabulary of the properties *)

(** ** Price versions *)

(** The version [v] has the greatest [validFrom] not after [startDate]
    among the versions of its location. *)
Definition greatestNotAfter (table : list LocationPrice.t) (startDate : Z)
    (v : LocationPrice.t) : Prop :=
  LocationPrice.validFrom v ≤ startDate
  ∧ ∀ w, w ∈ table →
         LocationPrice.locationId w = LocationPrice.locationId v →
         LocationPrice.validFrom w ≤ startDate →
         LocationPrice.validFrom w ≤ LocationPrice.validFrom v.

(** A query result holds a single version per location among those that
    took effect at or before [startDate]. *)
Definition singleVersionAtStart (result : list LocationPrice.t) (startDate : Z)
  : Prop :=
  ∀ v1 v2, v1 ∈ result → v2 ∈ result →
           LocationPrice.locationId v1 = LocationPrice.locationId v2 →
           LocationPrice.validFrom v1 ≤ startDate →
           LocationPrice.validFrom v2 ≤ startDate →
           v1 = v2.

(** No two versions of one location share a [validFrom]. *)
Definition distinctValidFrom (table : list LocationPrice.t) : Prop :=
  ∀ v1 v2, v1 ∈ table → v2 ∈ table →
           LocationPrice.locationId v1 = LocationPrice.locationId v2 →
           LocationPrice.validFrom v1 = LocationPrice.validFrom v2 →
           v1 = v2.

(** ** Snapshots *)

(** [s] is a latest snapshot of its product in the processing facilities:
    no snapshot of that product in any facility is more recent. *)
Definition latestFacilitySnapshot (db : Database) (s : Storage.t) : Prop :=
  s ∈ storage db ∧ atFacility db s
  ∧ ∀ s', s' ∈ storage db → atFacility db s' →
          Storage.productId s' = Storage.productId s →
          Storage.createdAt s' ≤ Storage.createdAt s.

(** The product is held at a processing facility. *)
Definition heldAtFacility (db : Database) (productId : Z) : Prop :=
  ∃ s, s ∈ storage db ∧ atFacility db s ∧ Storage.productId s = productId.

(** [s] is a latest snapshot of the key (locationId, productId). *)
Definition latestAt (db : Database) (locationId productId : Z) (s : Storage.t)
  : Prop :=
  s ∈ storage db ∧ Storage.locationId s = locationId
  ∧ Storage.productId s = productId
  ∧ ∀ s', s' ∈ storage db → Storage.locationId s' = locationId →
          Storage.productId s' = productId →
          Storage.createdAt s' ≤ Storage.createdAt s.

(** The key (locationId, productId) has a snapshot. *)
Definition hasSnapshot (db : Database) (locationId productId : Z) : Prop :=
  ∃ s, s ∈ storage db ∧ Storage.locationId s = locationId
       ∧ Storage.productId s = productId.

(** The key (locationId, productId) has no snapshot yet. *)
Definition noSnapshot (db : Database) (locationId productId : Z) : Prop :=
  ∀ s, s ∈ storage db →
       ¬ (Storage.locationId s = locationId ∧ Storage.productId s = productId).

(** Every snapshot of the product of [s] recorded at the instant of [s]
    holds the quantity of [s]. *)
Definition sameQuantityAtInstant (db : Database) (s : Storage.t) : Prop :=
  ∀ s', s' ∈ storage db → Storage.productId s' = Storage.productId s →
        Storage.createdAt s' = Storage.createdAt s →
        Storage.palletAmount s' = Storage.palletAmount s.

(** A query result holds exactly one row for each of its products. *)
Definition exactlyOnePerProduct (result : list Storage.t) : Prop :=
  ∀ p, p ∈ Storage.productId <$> result →
       length (filter (λ s, Storage.productId s = p) result) = 1%nat.

(** The latest of some snapshots as the specification defines it: the one
    with the greatest [createdAt], the last inserted one among equals. *)
Definition latestAmong (rows : list Storage.t) : option Storage.t :=
  foldl (λ best s,
           match best with
           | Some b =>
               if decide (Storage.createdAt b ≤ Storage.createdAt s)
               then Some s else best
           | None => Some s
           end)
        None rows.

(** The current quantity of a key: that of its latest snapshot, and 0 when
    the key has no snapshot. *)
Definition currentQuantity (db : Database) (locationId productId : Z) : Z :=
  default 0
    (Storage.palletAmount
       <$> latestAmong (filter (λ s, Storage.locationId s = locationId
                                     ∧ Storage.productId s = productId)
                               (storage db))).

(** The quantity of a key as of an instant: that of the latest snapshot
    recorded at or before it. *)
Definition quantityAsOf (db : Database) (locationId productId asOf : Z)
  : option Z :=
  Storage.palletAmount
    <$> latestAmong (filter (λ s, Storage.locationId s = locationId
                                  ∧ Storage.productId s = productId
                                  ∧ Storage.createdAt s ≤ asOf)
                            (storage db)).

(** The quantities stored by a mutation that led from [db] to [db']. *)
Definition storedQuantities (db db' : Database) : list Z :=
  Storage.palletAmount <$> drop (length (storage db)) (storage db').

(** ** Reservations *)

(** The sum of a list of integers. *)
Definition sumZ (l : list Z) : Z := foldr Z.add 0 l.

(** The pallets of a product reserved by open orders: the sum of
    [palletAmount] over the order rows of the product whose order has the
    status 'Avattu'. *)
Definition reservedQuantity (db : Database) (productId : Z) : Z :=
  sumZ (OrderRow.palletAmount
          <$> filter (λ row, orderIsOpen db row
                             ∧ OrderRow.productId row = productId)
                     (orderRow db)).

(** ** Reports *)

(** A server whose clock runs in UTC. *)
Definition utc : TimeZone.t :=
  TimeZone.mk (λ _, 0) (λ _, 0) (λ d, ltac:(unfold msPerDay; lia)).

(** The zone has one offset at all times: no summer time and no other
    clock change. *)
Definition fixedOffset (zone : TimeZone.t) : Prop :=
  ∃ offset, ∀ t, TimeZone.offsetAt zone t = offset
                 ∧ TimeZone.offsetOfLocal zone t = offset.

(** The date is a calendar date: midnight UTC, as [new Date('2024-01-01')]
    reads a date without a time of day. *)
Definition isCalendarDate (d : Z) : Prop := d `mod` msPerDay = 0.

(** The days of the inclusive range, as time values in ascending order. *)
Definition calendarDays (startDate endDate : Z) : list Z :=
  (λ i : nat, startDate + Z.of_nat i * msPerDay)
    <$> seq 0 (S (Z.to_nat ((endDate - startDate) / msPerDay))).

(** The location reports of a returned report. *)
Definition reportsOf (o : outcome Report.t) : list LocationReport.t :=
  match o with
  | Returned r => Report.locationReports r
  | Raised _ => []
  end.

(** The records of a returned list of storages. *)
Definition storagesOf (o : outcome (list Storage.t)) : list Storage.t :=
  match o with
  | Returned storages => storages
  | Raised _ => []
  end.

(** * Example data *)

(** Example price table: two versions of location 1 with one [validFrom]. *)
Definition twinPrices : list LocationPrice.t :=
  [ LocationPrice.mk 1 1 (50 # 1) 10;
    LocationPrice.mk 2 1 (60 # 1) 10 ].

(** Example for the availability figures: one facility holding 20 pallets
    of product 7, and an open order reserving [reserved] of them. *)
Definition facilityDb (reserved : Z) : Database :=
  mkDatabase
    [ Location.mk 1 "Akkukäsittely" "Address 3" "85500" "Nivala"
        Kasittelylaitos None [] ]
    [ Product.mk 7 "Paristolaatikko" 30 ]
    [ Storage.mk 1 1 7 20 1000 ]
    []
    [ Order.mk 1 1 Avattu; Order.mk 2 1 "Noudettu" ]
    [ OrderRow.mk 1 7 reserved; OrderRow.mk 2 7 6 ]
    2.

(** Example: two processing facilities that recorded product 7 at the same
    instant, 20 pallets in the one and 30 in the other, and an open order
    reserving 8 pallets of it. *)
Definition twoFacilitiesDb : Database :=
  mkDatabase
    [ Location.mk 1 "Akkukäsittely" "Address 3" "85500" "Nivala"
        Kasittelylaitos None [];
      Location.mk 2 "Paristokierrätys" "Address 4" "90100" "Oulu"
        Kasittelylaitos None [] ]
    [ Product.mk 7 "Paristolaatikko" 30 ]
    [ Storage.mk 1 1 7 20 1000; Storage.mk 2 2 7 30 1000 ]
    []
    [ Order.mk 1 1 Avattu ]
    [ OrderRow.mk 1 7 8 ]
    3.

(** Example ledger: location 1 holds 20 pallets of product 7. *)
Definition ledgerDb : Database :=
  mkDatabase
    [ Location.mk 1 "Kuljetus Korhonen" "Address 1" "01600" "Vantaa"
        "Kuljetusliike" None [] ]
    [ Product.mk 7 "Paristolaatikko" 30 ]
    [ Storage.mk 1 1 7 20 1000 ]
    [] [] []
    2.

(** Example input: 5 pallets of product 7 at location 1. *)
Definition fivePallets : StorageInput.t :=
  StorageInput.mk 1 [StorageRowInput.mk 7 5].

(** Example: one processing facility without any stock yet. *)
Definition emptyFacilityDb : Database :=
  mkDatabase
    [ Location.mk 1 "Akkukäsittely" "Address 3" "85500" "Nivala"
        Kasittelylaitos None [] ]
    [ Product.mk 7 "Paristolaatikko" 30 ]
    [] [] [] []
    1.

(** The input that names product 7 twice. *)
Definition twoRowsOfOneProduct : StorageInput.t :=
  StorageInput.mk 1 [StorageRowInput.mk 7 20; StorageRowInput.mk 7 30].

(** The database after that request, served at the instant 1000. *)
Definition tiedDb : Database :=
  (addPallets unit (λ _, None) tt 1000 twoRowsOfOneProduct emptyFacilityDb).2.

(** Example request: location 1 from day 20 back to day 10. *)
Definition backwardsInput : ReportInput.t :=
  ReportInput.mk (20 * msPerDay) (10 * msPerDay) [1].

(** The product of the scenario of January 2024. *)
Definition paristolaatikko : Product.t := Product.mk 1 "Paristolaatikko" 30.

(** The scenario of January 2024: location 1 holds product 1, with the
    snapshots 20 on 2023-12-28, 60 on 2024-01-01 and 70 on 2024-01-24, and
    one price valid from 2024-01-01. Day [n] since the epoch is the time
    value [n * msPerDay]; 2024-01-01 is day 19723. *)
Definition januaryDb : Database :=
  mkDatabase
    [ Location.mk 1 "Kuljetus Korhonen" "Address 1" "01600" "Vantaa"
        "Kuljetusliike" None [] ]
    [ paristolaatikko ]
    [ Storage.mk 1 1 1 20 (19719 * msPerDay);
      Storage.mk 2 1 1 60 (19723 * msPerDay);
      Storage.mk 3 1 1 70 (19746 * msPerDay) ]
    [ LocationPrice.mk 1 1 (5095 # 100) (19723 * msPerDay) ]
    [] []
    4.

(** The report over 2024-01-01 .. 2024-01-31 for location 1. *)
Definition januaryInput : ReportInput.t :=
  ReportInput.mk (19723 * msPerDay) (19753 * msPerDay) [1].



(** * Further resolvers *)

(** ** Order resolvers ([graphql/order.ts]) *)

(** An order as [findByPk] returns it, with its 'location' and its order
    rows included. *)
Module OrderResult.
Record t : Type := mk {
  order : Order.t;
  location : option Location.t;
  orderRows : list OrderRow.t
}.
End OrderResult.

(** input OrderRowInput and input AddOrderInput. *)
Module OrderRowInput.
Record t : Type := mk {
  productId : Z;
  palletAmount : Z
}.
End OrderRowInput.

Module AddOrderInput.
Record t : Type := mk {
  locationId : Z;
  status : string;
  orderRows : list OrderRowInput.t
}.
End AddOrderInput.

(** The object [addOrder] returns: the location holds its id only. *)
Module AddOrderResult.
Record t : Type := mk {
  orderId : Z;
  locationId : Z;
  createdAt : Z;
  status : string;
  orderRows : list OrderRow.t
}.
End AddOrderResult.

(** [Order.findByPk(orderId, { include: ['location',
      { model: OrderRow, where: { orderId: orderId }, include: ['product'] }] })]:
    the include that has a [where] is an inner join, so an order without
    any order row is not found. *)
Definition Order_findWithRows (db : Database) (orderId : Z)
  : option OrderResult.t :=
  match Order_findByPk db orderId with
  | Some o =>
      match filter (λ row, OrderRow.orderId row = orderId) (orderRow db) with
      | [] => None
      | rows =>
          Some (OrderResult.mk o (Location_findByPk db (Order.locationId o)) rows)
      end
  | None => None
  end.

(** [order.status = status]. *)
Definition Order_with_status (o : Order.t) (status : string) : Order.t :=
  Order.mk (Order.orderId o) (Order.locationId o) status.

(** [order.save()]: the row of the order's primary key is rewritten. *)
Definition Order_save (o : Order.t) (db : Database) : Database :=
  mkDatabase (location db) (product db) (storage db) (locationPrice db)
    ((λ row, if decide (Order.orderId row = Order.orderId o) then o else row)
       <$> order db)
    (orderRow db) (storageSeq db).

(** [Order.create({ locationId, status })], the sequence of the table
    yielding [orderId]. *)
Definition Order_create (orderId locationId : Z) (status : string)
    (db : Database) : Order.t * Database :=
  let o := Order.mk orderId locationId status in
  (o, mkDatabase (location db) (product db) (storage db) (locationPrice db)
        (order db ++ [o]) (orderRow db) (storageSeq db)).

(** The primary key of the orderRow table ([model/OrderRow.ts]). *)
Definition OrderRow_key (row : OrderRow.t) : Z * Z :=
  (OrderRow.orderId row, OrderRow.productId row).

(** [OrderRow.bulkCreate(rows)]: one INSERT, refused as a whole ([None])
    when a row repeats the primary key of another new row or of a row of
    the table. *)
Definition OrderRow_bulkCreate (rows : list OrderRow.t) (db : Database)
  : option Database :=
  if decide (NoDup (OrderRow_key <$> rows)
             ∧ Forall (λ row, OrderRow_key row ∉ OrderRow_key <$> orderRow db) rows)
  then Some (mkDatabase (location db) (product db) (storage db)
               (locationPrice db) (order db) (orderRow db ++ rows)
               (storageSeq db))
  else None.

Module OrderResolvers.
Section Resolvers.

Variable MyContext : Type.
Variable checkHasRole : MyContext → option string.
Variable checkAdminOrOwner : MyContext → Z → option string.

(** mark order as collected. *)
Definition collectOrder (context : MyContext) (orderId : Z) (db : Database)
  : outcome OrderResult.t * Database :=
  match checkHasRole context with
  | Some m => (Raised m, db)
  | None =>
      let '(result, db') :=
        match Order_findWithRows db orderId with
        | None =>
            (Raised ("Order with ID " +:+ pretty orderId +:+ " not found"), db)
        | Some found =>
            let o := Order_with_status (OrderResult.order found) "Noudettu" in
            (Returned (OrderResult.mk o (OrderResult.location found)
                                      (OrderResult.orderRows found)),
             Order_save o db)
        end in
      (catch_rethrow result (λ _, "Error collecting order " +:+ pretty orderId),
       db')
  end.

(** mark order as cancelled. *)
Definition cancelOrder (context : MyContext) (orderId : Z) (db : Database)
  : outcome OrderResult.t * Database :=
  match checkHasRole context with
  | Some m => (Raised m, db)
  | None =>
      let '(result, db') :=
        match Order_findWithRows db orderId with
        | None =>
            (Raised ("Order with ID " +:+ pretty orderId +:+ " not found"), db)
        | Some found =>
            let o := Order_with_status (OrderResult.order found) "Peruttu" in
            (Returned (OrderResult.mk o (OrderResult.location found)
                                      (OrderResult.orderRows found)),
             Order_save o db)
        end in
      (catch_rethrow result (λ _, "Error cancelling order " +:+ pretty orderId),
       db')
  end.

(** [addOrder]: the ownership check is made inside the [try] block; the
    order is created first and its rows afterwards, without a transaction.
    [newOrderId] is the id the sequence gives the order and [now] the
    instant of its creation. *)
Definition addOrder (context : MyContext) (newOrderId now : Z)
    (input : AddOrderInput.t) (db : Database)
  : outcome AddOrderResult.t * Database :=
  let locationId := AddOrderInput.locationId input in
  let status := AddOrderInput.status input in
  let '(result, db') :=
    match checkAdminOrOwner context locationId with
    | Some m => (Raised m, db)
    | None =>
        let '(o, db1) := Order_create newOrderId locationId status db in
        let rows :=
          (λ rowInput, OrderRow.mk (Order.orderId o)
                         (OrderRowInput.productId rowInput)
                         (OrderRowInput.palletAmount rowInput))
            <$> AddOrderInput.orderRows input in
        match OrderRow_bulkCreate rows db1 with
        | None => (Raised "Validation error", db1)
        | Some db2 =>
            (Returned (AddOrderResult.mk (Order.orderId o) locationId now
                                         (Order.status o) rows), db2)
        end
    end in
  (catch_rethrow result (λ _, "Error adding new order"), db').

(** get order by id. *)
Definition order (context : MyContext) (orderId : Z) (db : Database)
  : outcome OrderResult.t :=
  match checkHasRole context with
  | Some m => Raised m
  | None =>
      catch_rethrow
        match Order_findWithRows db orderId with
        | None => Raised ("Order with ID " +:+ pretty orderId +:+ " not found")
        | Some found => Returned found
        end
        (λ _, "Error retrieving order with ID " +:+ pretty orderId)
  end.

End Resolvers.
End OrderResolvers.

(** ** [addLocationPrice] ([graphql/locationPrice.ts]) *)

(** input LocationPriceInput, with [validFrom] already read as a date. *)
Module LocationPriceInput.
Record t : Type := mk {
  locationId : Z;
  price : Q;
  validFrom : Z
}.
End LocationPriceInput.

(** [LocationPrice.create(locationPrice)], the sequence of the table
    yielding [locationPriceId]. *)
Definition LocationPrice_create (locationPriceId : Z)
    (input : LocationPriceInput.t) (db : Database)
  : LocationPrice.t * Database :=
  let newPrice :=
    LocationPrice.mk locationPriceId (LocationPriceInput.locationId input)
      (LocationPriceInput.price input) (LocationPriceInput.validFrom input) in
  (newPrice,
   mkDatabase (location db) (product db) (storage db)
     (locationPrice db ++ [newPrice]) (order db) (orderRow db) (storageSeq db)).

Section PriceResolvers.

Variable MyContext : Type.
Variable checkAdminOrOwner : MyContext → Z → option string.

(** The ownership check is made inside the [try] block, and the message of
    the [catch] block quotes the caught error, which prints as
    'Error: ' and its message. *)
Definition addLocationPrice (context : MyContext) (newLocationPriceId : Z)
    (locationPrice : LocationPriceInput.t) (db : Database)
  : outcome LocationPrice.t * Database :=
  let '(result, db') :=
    match checkAdminOrOwner context
            (LocationPriceInput.locationId locationPrice) with
    | Some m => (Raised m, db)
    | None =>
        let '(newPrice, db') :=
          LocationPrice_create newLocationPriceId locationPrice db in
        (Returned newPrice, db')
    end in
  (catch_rethrow result
     (λ error, "Unable to add price for location "
               +:+ pretty (LocationPriceInput.locationId locationPrice)
               +:+ ": Error: " +:+ error),
   db').

End PriceResolvers.

(** ** Location resolvers ([graphql/location.ts]) *)

(** input LocationInput: every field may be left out. *)
Module LocationInput.
Record t : Type := mk {
  locationName : option string;
  address : option string;
  postCode : option string;
  city : option string;
  locationType : option string
}.
End LocationInput.

(** [Object.assign(locationToUpdate, input)]: the fields the input holds
    overwrite those of the location. *)
Definition Object_assign (l : Location.t) (input : LocationInput.t)
  : Location.t :=
  Location.mk (Location.locationId l)
    (default (Location.locationName l) (LocationInput.locationName input))
    (default (Location.address l) (LocationInput.address input))
    (default (Location.postCode l) (LocationInput.postCode input))
    (default (Location.city l) (LocationInput.city input))
    (default (Location.locationType l) (LocationInput.locationType input))
    (Location.locationPrices l) (Location.storages l).

(** [locationToUpdate.save()]: the row of the location's primary key is
    rewritten. *)
Definition Location_save (l : Location.t) (db : Database) : Database :=
  mkDatabase
    ((λ row, if decide (Location.locationId row = Location.locationId l)
             then l else row) <$> location db)
    (product db) (storage db) (locationPrice db) (order db) (orderRow db)
    (storageSeq db).

Module LocationResolvers.
Section Resolvers.

Variable MyContext : Type.
Variable checkHasRole : MyContext → option string.
Variable checkAdminOrOwner : MyContext → Z → option string.

Definition updateLocation (context : MyContext) (locationId : Z)
    (input : LocationInput.t) (db : Database)
  : outcome Location.t * Database :=
  match checkAdminOrOwner context locationId with
  | Some m => (Raised m, db)
  | None =>
      let '(result, db') :=
        match Location_findByPk db locationId with
        | None => (Raised "Location not found", db)
        | Some locationToUpdate =>
            let updated := Object_assign locationToUpdate input in
            (Returned updated, Location_save updated db)
        end in
      (catch_rethrow result (λ message, "Failed to update location: " +:+ message),
       db')
  end.

(** get all locations, each with its storages included. *)
Definition allLocations (context : MyContext) (db : Database)
  : outcome (list Location.t) :=
  match checkHasRole context with
  | Some m => Raised m
  | None =>
      catch_rethrow
        (Returned
           ((λ l, Location.set_storages l
                    (filter (λ s, Storage.locationId s = Location.locationId l)
                            (storage db))) <$> location db))
        (λ _, "Error retrieving all locations ")
  end.

(** The [location] query: the location with all its storages and all its
    prices included. *)
Definition location (context : MyContext) (locationId : Z) (db : Database)
  : outcome Location.t :=
  match checkHasRole context with
  | Some m => Raised m
  | None =>
      catch_rethrow
        match Location_findByPk db locationId with
        | None => Raised ("Location with ID " +:+ pretty locationId
                          +:+ " not found")
        | Some l =>
            Returned
              (Location.set_locationPrices
                 (Location.set_storages l
                    (filter (λ s, Storage.locationId s = locationId)
                            (storage db)))
                 (Some (filter (λ p, LocationPrice.locationId p = locationId)
                               (locationPrice db))))
        end
        (λ _, "Error retrieving location with ID " +:+ pretty locationId)
  end.

End Resolvers.
End LocationResolvers.

(** ** Calls served against one database *)

(** The requests of the storage ledger together with the mutations of the
    orders, the prices and the locations. *)
Inductive call : Type :=
| Call_request (r : request)
| Call_collectOrder (orderId : Z)
| Call_cancelOrder (orderId : Z)
| Call_addOrder (newOrderId now : Z) (input : AddOrderInput.t)
| Call_addLocationPrice (newLocationPriceId : Z)
                        (locationPrice : LocationPriceInput.t)
| Call_updateLocation (locationId : Z) (input : LocationInput.t).

Section Api.

Variable MyContext : Type.
Variable checkHasRole : MyContext → option string.
Variable checkAdminOrOwner : MyContext → Z → option string.

(** The database a call leaves behind. *)
Definition perform (context : MyContext) (db : Database) (c : call) : Database :=
  match c with
  | Call_request r => serve MyContext checkHasRole checkAdminOrOwner context db r
  | Call_collectOrder orderId =>
      (OrderResolvers.collectOrder MyContext checkHasRole context orderId db).2
  | Call_cancelOrder orderId =>
      (OrderResolvers.cancelOrder MyContext checkHasRole context orderId db).2
  | Call_addOrder newOrderId now input =>
      (OrderResolvers.addOrder MyContext checkAdminOrOwner context
         newOrderId now input db).2
  | Call_addLocationPrice newLocationPriceId locationPrice =>
      (addLocationPrice MyContext checkAdminOrOwner context
         newLocationPriceId locationPrice db).2
  | Call_updateLocation locationId input =>
      (LocationResolvers.updateLocation MyContext checkAdminOrOwner context
         locationId input db).2
  end.

(** The calls of a run, each with its context, performed in order. *)
Definition performAll (db : Database) (run : list (MyContext * call)) : Database :=
  foldl (λ db c, perform c.1 db c.2) db run.

End Api.

(** * Further vocabulary *)

(** The pallets an order holds of a product. *)
Definition orderQuantity (db : Database) (orderId productId : Z) : Z :=
  sumZ (OrderRow.palletAmount
          <$> filter (λ row, OrderRow.orderId row = orderId
                             ∧ OrderRow.productId row = productId)
                     (orderRow db)).

(** The pallets an order input asks of a product. *)
Definition inputQuantity (rows : list OrderRowInput.t) (productId : Z) : Z :=
  sumZ (OrderRowInput.palletAmount
          <$> filter (λ row, OrderRowInput.productId row = productId) rows).

(** The order has at least one order row. *)
Definition hasOrderRow (db : Database) (orderId : Z) : Prop :=
  ∃ row, row ∈ orderRow db ∧ OrderRow.orderId row = orderId.

(** Example: [facilityDb] with a third order, open, that has no row. *)
Definition emptyOrderDb : Database :=
  mkDatabase (location (facilityDb 8)) (product (facilityDb 8))
    (storage (facilityDb 8)) []
    (order (facilityDb 8) ++ [Order.mk 3 1 Avattu])
    (orderRow (facilityDb 8)) 2.

(** The database after the status of the order has been written:
    unchanged when the order is not found with its rows. *)
Definition statusWritten (status : string) (orderId : Z) (db : Database)
  : Database :=
  match Order_findWithRows db orderId with
  | Some found =>
      Order_save (Order_with_status (OrderResult.order found) status) db
  | None => db
  end.

(** What closing the order [o] with [status] gives: the order is returned
    with that status and its rows, no pallet moves, and the pallets the
    order held are no longer reserved. *)
Definition closedAs (status : string) (db : Database) (orderId : Z) (o : Order.t)
    (result : outcome OrderResult.t * Database) : Prop :=
  result.1
  = Returned (OrderResult.mk (Order_with_status o status)
                (Location_findByPk db (Order.locationId o))
                (filter (λ row, OrderRow.orderId row = orderId) (orderRow db)))
  ∧ Order_findByPk result.2 orderId = Some (Order_with_status o status)
  ∧ storage result.2 = storage db
  ∧ orderRow result.2 = orderRow db
  ∧ ∀ p, reservedQuantity result.2 p
         = reservedQuantity db p
           - (if decide (Order.status o = Avattu)
              then orderQuantity db orderId p else 0).

(** The order rows [addOrder] makes of an input for the order [orderId]. *)
Definition orderRowsOf (orderId : Z) (rows : list OrderRowInput.t)
  : list OrderRow.t :=
  (λ rowInput, OrderRow.mk orderId (OrderRowInput.productId rowInput)
                 (OrderRowInput.palletAmount rowInput)) <$> rows.

(** Example inputs of [addOrder]: 25 pallets of product 7 for location 1,
    and an input that names product 7 twice. *)
Definition bigOrder : AddOrderInput.t :=
  AddOrderInput.mk 1 Avattu [OrderRowInput.mk 7 25].

Definition repeatedProductOrder : AddOrderInput.t :=
  AddOrderInput.mk 1 Avattu [OrderRowInput.mk 7 2; OrderRowInput.mk 7 3].

(** A location with the prices [prices] pushed on its [locationPrices]:
    left as it is when there is none to push. *)
Definition withPrices (l : Location.t) (prices : list LocationPrice.t)
  : Location.t :=
  match prices with
  | [] => l
  | _ => Location.set_locationPrices l
           (Some (default [] (Location.locationPrices l) ++ prices))
  end.

(** Example input of [updateLocation]: the location becomes a carrier. *)
Definition toCarrier : LocationInput.t :=
  LocationInput.mk None None None None (Some "Kuljetusliike").

(** * Properties *)

(** ** Relational helpers *)

Lemma foldr_max_spec (x : Z) (rest : list Z) :
  foldr Z.max x rest ∈ x :: rest ∧ ∀ y, y ∈ x :: rest → y ≤ foldr Z.max x rest.
Proof.
  induction rest as [|z rest [IHin IHmax]]; simpl.
  - split; [left|]. intros y ->%list_elem_of_singleton. lia.
  - split.
    + destruct (Z.max_spec z (foldr Z.max x rest)) as [[_ ->]|[_ ->]].
      * apply elem_of_cons in IHin as [->|Hin]; [left|do 2 right; done].
      * right; left.
    + intros y Hy. apply elem_of_cons in Hy as [->|Hy].
      * specialize (IHmax x (list_elem_of_here _ _)). lia.
      * apply elem_of_cons in Hy as [->|Hy]; [lia|].
        specialize (IHmax y (list_elem_of_further _ _ _ Hy)). lia.
Qed.

Lemma sql_max_Some (column : list Z) (m : Z) :
  sql_max column = Some m ↔ m ∈ column ∧ ∀ y, y ∈ column → y ≤ m.
Proof.
  destruct column as [|x rest]; simpl.
  - split; [done|]. intros [Hin _]. by apply not_elem_of_nil in Hin.
  - destruct (foldr_max_spec x rest) as [Hin Hmax]. split.
    + intros [= <-]. done.
    + intros [Hm Hle]. f_equal.
      specialize (Hle _ Hin). specialize (Hmax _ Hm). lia.
Qed.

Lemma sql_max_None (column : list Z) : sql_max column = None ↔ column = [].
Proof. destruct column; simpl; split; done. Qed.

(** ** The price query *)

Lemma pricesValidAtStart_spec table locationIds startDate v :
  v ∈ pricesValidAtStart table locationIds startDate
  ↔ v ∈ table ∧ LocationPrice.locationId v ∈ locationIds
    ∧ greatestNotAfter table startDate v.
Proof.
  unfold pricesValidAtStart, maxValidFrom, greatestNotAfter.
  rewrite list_elem_of_filter. split.
  - intros [[Hmax Hloc] Hin]. symmetry in Hmax.
    apply sql_max_Some in Hmax as [Hm Hle].
    apply list_elem_of_fmap in Hm as (u & Hu & [[Hus _] _]%list_elem_of_filter).
    repeat split; [done|done|lia|].
    intros w Hw Hwl Hws. apply Hle, list_elem_of_fmap.
    exists w. split; [done|]. apply list_elem_of_filter. done.
  - intros (Hin & Hloc & Hs & Hle). repeat split; [|done|done].
    symmetry. apply sql_max_Some. split.
    + apply list_elem_of_fmap. exists v. split; [done|].
      apply list_elem_of_filter. done.
    + intros y (w & -> & [[Hws Hwl] Hw]%list_elem_of_filter)%list_elem_of_fmap.
      by apply Hle.
Qed.

Lemma priceChangesWithin_spec table locationIds startDate endDate v :
  v ∈ priceChangesWithin table locationIds startDate endDate
  ↔ v ∈ table ∧ LocationPrice.locationId v ∈ locationIds
    ∧ startDate ≤ LocationPrice.validFrom v ≤ endDate.
Proof. unfold priceChangesWithin. rewrite list_elem_of_filter. tauto. Qed.

(** C1, as the code has it: the price query of the report returns, without
    repetition, exactly the versions of the requested locations that
    (a) carry the greatest [validFrom] not after [startDate] of their
    location, or (b) have their [validFrom] inside [startDate, endDate]; a
    version that took effect before the window and is still the effective
    one at [startDate] is therefore returned; and (a) contributes a single
    version per location whenever the versions of a location have distinct
    [validFrom] values. *)
Theorem priceQuery_union table locationIds startDate endDate :
  let result := priceQuery table locationIds startDate endDate in
  NoDup result
  ∧ (∀ v, v ∈ result
          ↔ v ∈ table ∧ LocationPrice.locationId v ∈ locationIds
            ∧ (greatestNotAfter table startDate v
               ∨ startDate ≤ LocationPrice.validFrom v ≤ endDate))
  ∧ (∀ v, v ∈ table → LocationPrice.locationId v ∈ locationIds →
          LocationPrice.validFrom v < startDate →
          greatestNotAfter table startDate v → v ∈ result)
  ∧ (distinctValidFrom table → singleVersionAtStart result startDate).
Proof.
  intros result.
  assert (Hspec : ∀ v, v ∈ result
          ↔ v ∈ table ∧ LocationPrice.locationId v ∈ locationIds
            ∧ (greatestNotAfter table startDate v
               ∨ startDate ≤ LocationPrice.validFrom v ≤ endDate)).
  { intros v. unfold result, priceQuery.
    rewrite elem_of_remove_dups, elem_of_app,
      pricesValidAtStart_spec, priceChangesWithin_spec. tauto. }
  split; [apply NoDup_remove_dups|]. split; [exact Hspec|]. split.
  - intros v Hin Hloc _ Hg. apply Hspec. tauto.
  - intros Hdistinct v1 v2 H1 H2 Hloc Hs1 Hs2.
    apply Hspec in H1 as (Hin1 & _ & Hc1). apply Hspec in H2 as (Hin2 & _ & Hc2).
    apply Hdistinct; [done..|].
    assert (Hg1 : greatestNotAfter table startDate v1).
    { destruct Hc1 as [?|Hw]; [done|]. split; [done|]. intros; lia. }
    assert (Hg2 : greatestNotAfter table startDate v2).
    { destruct Hc2 as [?|Hw]; [done|]. split; [done|]. intros; lia. }
    destruct Hg1 as [_ Hg1], Hg2 as [_ Hg2].
    specialize (Hg1 v2 Hin2 (eq_sym Hloc) Hs2).
    specialize (Hg2 v1 Hin1 Hloc Hs1). lia.
Qed.

Lemma priceQuery_union_witness :
  distinctValidFrom [LocationPrice.mk 1 1 (50 # 1) 10]
  ∧ singleVersionAtStart
      (priceQuery [LocationPrice.mk 1 1 (50 # 1) 10] [1] 20 30) 20.
Proof.
  assert (Hd : distinctValidFrom [LocationPrice.mk 1 1 (50 # 1) 10]).
  { intros v1 v2 ->%list_elem_of_singleton ->%list_elem_of_singleton _ _.
    reflexivity. }
  split; [exact Hd|].
  exact (proj2 (proj2 (proj2
    (priceQuery_union [LocationPrice.mk 1 1 (50 # 1) 10] [1] 20 30))) Hd).
Defined.

(** C1, as the specification words it, fails: with two versions of one
    location sharing the greatest [validFrom] not after [startDate], the
    query returns both of them, not a single one. *)
Lemma priceQuery_twin_versions :
  priceQuery twinPrices [1] 20 30 = twinPrices
  ∧ ¬ singleVersionAtStart (priceQuery twinPrices [1] 20 30) 20.
Proof.
  assert (Heq : priceQuery twinPrices [1] 20 30 = twinPrices) by reflexivity.
  split; [exact Heq|]. rewrite Heq. intros Hsingle.
  specialize (Hsingle (LocationPrice.mk 1 1 (50 # 1) 10)
                      (LocationPrice.mk 2 1 (60 # 1) 10)).
  unfold twinPrices in Hsingle.
  discriminate Hsingle; simpl; try lia; try reflexivity.
  - left.
  - right; left.
Qed.

(** ** Latest snapshot per product *)

Lemma inLatest_spec (rows : list Storage.t) (s : Storage.t) :
  inLatest (maxCreatedAtByProduct rows) s
  ↔ (∃ s0, s0 ∈ rows ∧ Storage.productId s0 = Storage.productId s
           ∧ Storage.createdAt s0 = Storage.createdAt s)
    ∧ ∀ s', s' ∈ rows → Storage.productId s' = Storage.productId s →
            Storage.createdAt s' ≤ Storage.createdAt s.
Proof.
  unfold inLatest, maxCreatedAtByProduct. rewrite list_elem_of_fmap. split.
  - intros (p & [= Hp Hmax] & _). subst p. symmetry in Hmax.
    apply sql_max_Some in Hmax as [Hin Hle]. split.
    + apply list_elem_of_fmap in Hin as (s0 & Ht & [Hp0 Hs0]%list_elem_of_filter).
      exists s0. done.
    + intros s' Hs' Hp'. apply Hle, list_elem_of_fmap. exists s'.
      split; [done|]. apply list_elem_of_filter. done.
  - intros [(s0 & Hs0 & Hp0 & Ht0) Hle]. exists (Storage.productId s). split.
    + f_equal. symmetry. apply sql_max_Some. split.
      * apply list_elem_of_fmap. exists s0. split; [done|].
        apply list_elem_of_filter. done.
      * intros y (s' & -> & [Hp' Hs']%list_elem_of_filter)%list_elem_of_fmap.
        by apply Hle.
    + apply elem_of_remove_dups, list_elem_of_fmap. exists s0. done.
Qed.

(** Among finitely many snapshots of a product one is the most recent. *)
Lemma latest_exists (rows : list Storage.t) (p : Z) :
  (∃ s0, s0 ∈ rows ∧ Storage.productId s0 = p) →
  ∃ s, s ∈ rows ∧ Storage.productId s = p
       ∧ ∀ s', s' ∈ rows → Storage.productId s' = p →
               Storage.createdAt s' ≤ Storage.createdAt s.
Proof.
  intros (s0 & Hs0 & Hp0).
  destruct (sql_max (Storage.createdAt
                       <$> filter (λ s, Storage.productId s = p) rows))
    as [m|] eqn:Hmax.
  - apply sql_max_Some in Hmax as [Hin Hle].
    apply list_elem_of_fmap in Hin as (s & -> & [Hp Hs]%list_elem_of_filter).
    exists s. repeat split; [done..|].
    intros s' Hs' Hp'. apply Hle, list_elem_of_fmap. exists s'.
    split; [done|]. apply list_elem_of_filter. done.
  - apply sql_max_None, fmap_nil_inv in Hmax.
    assert (Hin : s0 ∈ filter (λ s, Storage.productId s = p) rows)
      by (apply list_elem_of_filter; done).
    rewrite Hmax in Hin. by apply not_elem_of_nil in Hin.
Qed.

Lemma currentFacilityStorages_spec (db : Database) (s : Storage.t) :
  s ∈ currentFacilityStorages db ↔ latestFacilitySnapshot db s.
Proof.
  unfold currentFacilityStorages, latestFacilitySnapshot.
  rewrite merge_sort_Permutation, list_elem_of_filter, inLatest_spec. split.
  - intros [[Hf [_ Hle]] Hin]. repeat split; [done..|].
    intros s' Hs' Hf' Hp'. apply Hle; [|done]. apply list_elem_of_filter. done.
  - intros (Hin & Hf & Hle). repeat split; [done| | |done].
    + exists s. repeat split; [|done..]. apply list_elem_of_filter. done.
    + intros s' [Hf' Hs']%list_elem_of_filter Hp'. by apply Hle.
Qed.

Lemma latestFacilitySnapshot_exists (db : Database) (p : Z) :
  heldAtFacility db p →
  ∃ s, latestFacilitySnapshot db s ∧ Storage.productId s = p.
Proof.
  intros (s0 & Hs0 & Hf0 & Hp0).
  destruct (latest_exists (filter (atFacility db) (storage db)) p)
    as (s & [Hf Hs]%list_elem_of_filter & Hp & Hle).
  { exists s0. split; [|done]. apply list_elem_of_filter. done. }
  exists s. split; [|done]. repeat split; [done..|].
  intros s' Hs' Hf' Hp'. apply Hle; [|congruence].
  apply list_elem_of_filter. done.
Qed.

(** ** One row per product *)

Lemma filter_ext_elem_of {A} (P Q : A → Prop)
    `{∀ x, Decision (P x)} `{∀ x, Decision (Q x)} (l : list A) :
  (∀ x, x ∈ l → P x ↔ Q x) → filter P l = filter Q l.
Proof.
  induction l as [|a l IH]; intros Hext; [done|].
  rewrite !filter_cons.
  rewrite IH by (intros x Hx; apply Hext; by right).
  destruct (decide (P a)) as [HP|HP], (decide (Q a)) as [HQ|HQ];
    [done| | |done]; exfalso; apply (Hext a (list_elem_of_here _ _)) in HP ||
                                 apply (Hext a (list_elem_of_here _ _)) in HQ;
    done.
Qed.

Lemma length_filter_NoDup_fmap {A} (f : A → Z) (l : list A) (x : A) :
  NoDup (f <$> l) → x ∈ l → length (filter (λ y, f y = f x) l) = 1%nat.
Proof.
  induction l as [|a l IH]; intros Hnodup Hx.
  - by apply not_elem_of_nil in Hx.
  - rewrite fmap_cons in Hnodup. apply NoDup_cons in Hnodup as [Ha Hnodup].
    apply elem_of_cons in Hx as [->|Hx].
    + rewrite filter_cons_True by done. cbn [length]. f_equal.
      destruct (filter (λ y, f y = f a) l) as [|y ys] eqn:Hfilter; [done|].
      exfalso. apply Ha.
      assert (Hy : y ∈ filter (λ y, f y = f a) l) by (rewrite Hfilter; left).
      apply list_elem_of_filter in Hy as [<- Hy].
      by apply list_elem_of_fmap_2.
    + rewrite filter_cons_False; [by apply IH|].
      intros Heq. apply Ha. rewrite Heq. by apply list_elem_of_fmap_2.
Qed.

#[local] Instance createdAtDesc_trans : Transitive createdAtDesc.
Proof. intros a b c. unfold createdAtDesc. lia. Qed.

#[local] Instance createdAtDesc_total : Total createdAtDesc.
Proof. intros a b. unfold createdAtDesc. lia. Qed.

(** The row numbered 1 of a partition carries its greatest [createdAt]. *)
Lemma head_createdAtDesc (rows : list Storage.t) (s : Storage.t) :
  head (merge_sort createdAtDesc rows) = Some s →
  s ∈ rows ∧ ∀ s', s' ∈ rows → Storage.createdAt s' ≤ Storage.createdAt s.
Proof.
  pose proof (merge_sort_Permutation createdAtDesc rows) as Hperm.
  pose proof (StronglySorted_merge_sort createdAtDesc rows) as Hsorted.
  destruct (merge_sort createdAtDesc rows) as [|s1 sorted]; [done|].
  intros [= ->]. split.
  - rewrite <- Hperm. left.
  - intros s' Hs'. rewrite <- Hperm in Hs'.
    apply elem_of_cons in Hs' as [->|Hs']; [lia|].
    apply StronglySorted_inv in Hsorted as [_ Hall].
    rewrite Forall_forall in Hall. by apply Hall.
Qed.

Lemma head_createdAtDesc_is_Some (rows : list Storage.t) (s : Storage.t) :
  s ∈ rows → is_Some (head (merge_sort createdAtDesc rows)).
Proof.
  intros Hs. pose proof (merge_sort_Permutation createdAtDesc rows) as Hperm.
  destruct (merge_sort createdAtDesc rows) as [|s1 sorted]; [|by eexists].
  apply Permutation_nil_l in Hperm. subst rows. by apply not_elem_of_nil in Hs.
Qed.

Lemma firstRowPerPartition_spec (db : Database) (p l t : Z) :
  (p, l, t) ∈ firstRowPerPartition db
  ↔ ∃ s, s ∈ storageJoinLocation db
         ∧ Storage.productId s = p ∧ Storage.locationId s = l
         ∧ Storage.createdAt s = t
         ∧ ∀ s', s' ∈ storageJoinLocation db →
                 Storage.productId s' = p → Storage.locationId s' = l →
                 Storage.createdAt s' ≤ t.
Proof.
  unfold firstRowPerPartition. rewrite list_elem_of_omap. split.
  - intros ([p0 l0] & _ & (s & Hhead & [= -> -> ->])%fmap_Some).
    apply head_createdAtDesc in Hhead as [Hs Hmax]. cbn [fst snd] in *.
    apply list_elem_of_filter in Hs as [[Hp Hl] Hs].
    exists s. repeat split; [done..|].
    intros s' Hs' Hp' Hl'. apply Hmax, list_elem_of_filter.
    split; [|done]. split; congruence.
  - intros (s & Hs & Hp & Hl & Ht & Hmax). exists (p, l). split.
    + apply elem_of_remove_dups, list_elem_of_fmap. exists s.
      split; [by rewrite Hp, Hl|done].
    + cbn [fst snd].
      assert (Hpart : s ∈ filter (λ s, Storage.productId s = p
                                       ∧ Storage.locationId s = l)
                                 (storageJoinLocation db))
        by (apply list_elem_of_filter; done).
      destruct (head_createdAtDesc_is_Some _ _ Hpart) as [s1 Hhead].
      rewrite Hhead. cbn [fmap option_fmap option_map].
      apply head_createdAtDesc in Hhead as [Hs1 Hmax1].
      specialize (Hmax1 s Hpart).
      apply list_elem_of_filter in Hs1 as [[Hp1 Hl1] Hs1].
      specialize (Hmax s1 Hs1 Hp1 Hl1).
      assert (Storage.createdAt s1 = t) by lia. congruence.
Qed.

Lemma latestStoragesOf_spec (db : Database) (l : Z) (s : Storage.t) :
  is_Some (Location_findByPk db l) →
  s ∈ latestStoragesOf db l ↔ latestAt db l (Storage.productId s) s.
Proof.
  intros Hlocation. unfold latestStoragesOf, latestAt.
  rewrite list_elem_of_filter, firstRowPerPartition_spec. split.
  - intros [[Hl (s0 & Hs0 & Hp0 & Hl0 & Ht0 & Hmax)] Hs].
    repeat split; [done..|]. intros s' Hs' Hl' Hp'.
    apply Hmax; [|done..]. apply list_elem_of_filter. by rewrite Hl'.
  - intros (Hs & Hl & _ & Hmax). repeat split; [done| |done].
    exists s. repeat split; [|done..|].
    + apply list_elem_of_filter. by rewrite Hl.
    + intros s' [_ Hs']%list_elem_of_filter Hp' Hl'. by apply Hmax.
Qed.

Lemma length_latest_rows (rows : list Storage.t) (Key Latest : Storage.t → Prop)
    `{∀ x, Decision (Key x)} `{∀ x, Decision (Latest x)} (smax : Storage.t) :
  NoDup (Storage.createdAt <$> filter Key rows) →
  smax ∈ rows → Key smax →
  (∀ y, y ∈ rows →
        Latest y ↔ Key y ∧ Storage.createdAt y = Storage.createdAt smax) →
  length (filter Latest rows) = 1%nat.
Proof.
  intros Hnodup Hin Hkey Hlatest.
  rewrite (filter_ext_elem_of Latest
             (λ y, Storage.createdAt y = Storage.createdAt smax ∧ Key y) rows)
    by (intros y Hy; rewrite (Hlatest y Hy); tauto).
  rewrite <- list_filter_filter.
  apply (length_filter_NoDup_fmap Storage.createdAt); [done|].
  apply list_elem_of_filter. done.
Qed.

Lemma currentFacilityStorages_single (db : Database) (p : Z) :
  heldAtFacility db p →
  NoDup (Storage.createdAt
           <$> filter (λ s, atFacility db s ∧ Storage.productId s = p)
                      (storage db)) →
  length (filter (λ s, Storage.productId s = p) (currentFacilityStorages db))
  = 1%nat.
Proof.
  intros (smax & Hmax & Hp)%latestFacilitySnapshot_exists Hnodup.
  unfold currentFacilityStorages.
  rewrite merge_sort_Permutation, list_filter_filter.
  destruct Hmax as (Hin & Hfacility & Hle).
  apply (length_latest_rows _
           (λ s, atFacility db s ∧ Storage.productId s = p) _ smax);
    [done..|].
  intros y Hy. rewrite inLatest_spec. split.
  - intros (Hpy & Hfy & (s0 & [Hf0 Hs0]%list_elem_of_filter & Hp0 & Ht0) & Hley).
    split; [done|].
    assert (Storage.createdAt y ≤ Storage.createdAt smax)
      by (apply Hle; [done..|congruence]).
    assert (Storage.createdAt smax ≤ Storage.createdAt y).
    { apply Hley; [|congruence]. apply list_elem_of_filter. done. }
    lia.
  - intros [[Hfy Hpy] Hty]. split; [done|]. split; [done|]. split.
    + exists y. repeat split; [|done..]. apply list_elem_of_filter. done.
    + intros s' [Hf' Hs']%list_elem_of_filter Hp'. rewrite Hty.
      apply Hle; [done..|congruence].
Qed.

Lemma latestStoragesOf_single (db : Database) (l p : Z) :
  is_Some (Location_findByPk db l) →
  hasSnapshot db l p →
  NoDup (Storage.createdAt
           <$> filter (λ s, Storage.locationId s = l ∧ Storage.productId s = p)
                      (storage db)) →
  length (filter (λ s, Storage.productId s = p) (latestStoragesOf db l))
  = 1%nat.
Proof.
  intros Hlocation (s0 & Hs0 & Hl0 & Hp0) Hnodup.
  destruct (latest_exists (filter (λ s, Storage.locationId s = l) (storage db)) p)
    as (smax & [Hlmax Hinmax]%list_elem_of_filter & Hpmax & Hle).
  { exists s0. split; [|done]. apply list_elem_of_filter. done. }
  unfold latestStoragesOf. rewrite list_filter_filter.
  apply (length_latest_rows _
           (λ s, Storage.locationId s = l ∧ Storage.productId s = p) _ smax);
    [done..|].
  intros y Hy. rewrite firstRowPerPartition_spec. split.
  - intros (Hpy & Hly & s1 & [_ Hs1]%list_elem_of_filter & Hp1 & Hl1 & Ht1 & Hley).
    split; [done|].
    assert (Storage.createdAt y ≤ Storage.createdAt smax).
    { apply Hle; [|congruence]. apply list_elem_of_filter. done. }
    assert (Storage.createdAt smax ≤ Storage.createdAt y).
    { apply Hley; [|congruence..]. apply list_elem_of_filter. by rewrite Hlmax. }
    lia.
  - intros [[Hly Hpy] Hty]. split; [done|]. split; [done|].
    exists y. repeat split; [|done..|].
    + apply list_elem_of_filter. by rewrite Hly.
    + intros s' [_ Hs']%list_elem_of_filter Hp' Hl'. rewrite Hty.
      apply Hle; [|congruence]. apply list_elem_of_filter. done.
Qed.

(** ** Availability *)

Lemma foldl_add_sumZ {A} (f : A → Z) (l : list A) (a : Z) :
  foldl (λ total x, total + f x) a l = a + sumZ (f <$> l).
Proof.
  unfold sumZ. revert a. induction l as [|x l IH]; intros a.
  - cbn [foldl fmap list_fmap foldr]. lia.
  - cbn [foldl fmap list_fmap foldr]. rewrite IH. lia.
Qed.

Lemma reserved_by_open_orders (db : Database) (p : Z) :
  foldl (λ total row, total + OrderRow.palletAmount row) 0
        (filter (λ row, OrderRow.productId row = p) (openOrderRows db))
  = reservedQuantity db p.
Proof.
  rewrite foldl_add_sumZ. unfold reservedQuantity, openOrderRows.
  rewrite list_filter_filter, Z.add_0_l. do 2 f_equal.
  apply list_filter_iff. intros row. tauto.
Qed.

Lemma length_filter_fmap {A B} (f : A → B) (P : B → Prop) (Q : A → Prop)
    `{∀ y, Decision (P y)} `{∀ x, Decision (Q x)} (l : list A) :
  (∀ x, P (f x) ↔ Q x) →
  length (filter P (f <$> l)) = length (filter Q l).
Proof.
  intros Hiff. induction l as [|a l IH]; [done|].
  rewrite fmap_cons, !filter_cons.
  destruct (decide (P (f a))) as [HP|HP], (decide (Q a)) as [HQ|HQ];
    cbn [length]; rewrite ?IH; try done; exfalso; apply Hiff in HP || apply Hiff in HQ;
    done.
Qed.

(** C2, as the code has it: when the role check passes, [availableStorages]
    returns (it raises nothing); its records are exactly the latest facility
    snapshots with their [palletAmount] replaced by that amount minus the
    sum of [palletAmount] over the rows of open ('Avattu') orders of the
    product; every product held at a processing facility has such a record,
    and exactly one when its facility snapshots have distinct [createdAt]
    values; the difference is an integer subtraction, so it is negative, as
    it is, when the reservations exceed the stock. *)
Theorem availableStorages_available
    (MyContext : Type) (checkHasRole : MyContext → option string)
    (context : MyContext) (db : Database) :
  checkHasRole context = None →
  ∃ result,
    availableStorages MyContext checkHasRole context db = Returned result
    ∧ (∀ r, r ∈ result
            ↔ ∃ s, latestFacilitySnapshot db s
                   ∧ r = Storage_with_palletAmount s
                           (Storage.palletAmount s
                            - reservedQuantity db (Storage.productId s)))
    ∧ (∀ p, heldAtFacility db p →
            ∃ s r, latestFacilitySnapshot db s ∧ Storage.productId s = p
                   ∧ r ∈ result ∧ Storage.productId r = p
                   ∧ Storage.palletAmount r
                     = Storage.palletAmount s - reservedQuantity db p)
    ∧ (∀ p, heldAtFacility db p →
            NoDup (Storage.createdAt
                     <$> filter (λ s, atFacility db s ∧ Storage.productId s = p)
                                (storage db)) →
            length (filter (λ r, Storage.productId r = p) result) = 1%nat).
Proof.
  intros Hrole. unfold availableStorages. rewrite Hrole. simpl.
  eexists. split; [reflexivity|].
  assert (Hspec : ∀ r,
    r ∈ (λ storage,
           Storage_with_palletAmount storage
             (Storage.palletAmount storage
              - foldl (λ total row, total + OrderRow.palletAmount row) 0
                  (filter (λ row, OrderRow.productId row
                                  = Storage.productId storage)
                          (openOrderRows db))))
          <$> currentFacilityStorages db
    ↔ ∃ s, latestFacilitySnapshot db s
           ∧ r = Storage_with_palletAmount s
                   (Storage.palletAmount s
                    - reservedQuantity db (Storage.productId s))).
  { intros r. rewrite list_elem_of_fmap. split.
    - intros (s & -> & Hs%currentFacilityStorages_spec). exists s.
      rewrite reserved_by_open_orders. done.
    - intros (s & Hs%currentFacilityStorages_spec & ->). exists s.
      rewrite reserved_by_open_orders. done. }
  split; [exact Hspec|]. split.
  - intros p (s & Hs & Hp)%latestFacilitySnapshot_exists.
    exists s, (Storage_with_palletAmount s
                 (Storage.palletAmount s - reservedQuantity db p)).
    split; [done|]. split; [done|]. split; [|done].
    apply Hspec. exists s. rewrite Hp. done.
  - intros p Hheld Hnodup.
    rewrite <- (currentFacilityStorages_single db p Hheld Hnodup).
    apply length_filter_fmap. done.
Qed.

Lemma availableStorages_available_witness :
  ∃ result,
    availableStorages unit (λ _, None) tt (facilityDb 25) = Returned result
    ∧ length (filter (λ r, Storage.productId r = 7) result) = 1%nat
    ∧ ∃ r, r ∈ result ∧ Storage.palletAmount r = 20 - reservedQuantity (facilityDb 25) 7.
Proof.
  destruct (availableStorages_available unit (λ _, None) tt (facilityDb 25)
              eq_refl) as (result & Hresult & Hall & Hheld & Hone).
  assert (Hproduct : heldAtFacility (facilityDb 25) 7).
  { exists (Storage.mk 1 1 7 20 1000). split; [left|]. split; reflexivity. }
  exists result. split; [exact Hresult|]. split.
  - apply Hone; [exact Hproduct|]. vm_compute. apply NoDup_singleton.
  - destruct (Hheld 7 Hproduct) as (s & r & Hs & _ & Hr & _ & Hamount).
    exists r. split; [exact Hr|]. rewrite Hamount. f_equal.
    destruct Hs as [->%list_elem_of_singleton _]. reflexivity.
Defined.

(** C2, as the specification words it, fails: when two facilities recorded
    product 7 at the same instant, [availableStorages] returns two records
    for the product, one per snapshot, not one. *)
Lemma availableStorages_two_records :
  availableStorages unit (λ _, None) tt twoFacilitiesDb
  = Returned [Storage.mk 1 1 7 12 1000; Storage.mk 2 2 7 22 1000]
  ∧ ¬ exactlyOnePerProduct
        (storagesOf (availableStorages unit (λ _, None) tt twoFacilitiesDb)).
Proof.
  assert (Heq : availableStorages unit (λ _, None) tt twoFacilitiesDb
                = Returned [Storage.mk 1 1 7 12 1000; Storage.mk 2 2 7 22 1000])
    by (vm_compute; reflexivity).
  split; [exact Heq|]. rewrite Heq. intros Hone.
  specialize (Hone 7 (list_elem_of_here _ _)).
  vm_compute in Hone. discriminate Hone.
Qed.

(** The two figures of the specification: 20 in stock and 8 reserved leave
    12; 20 in stock and 25 reserved leave -5. *)
Example availableStorages_12 :
  availableStorages unit (λ _, None) tt (facilityDb 8)
  = Returned [Storage.mk 1 1 7 12 1000].
Proof. reflexivity. Qed.

Example availableStorages_overcommitted :
  availableStorages unit (λ _, None) tt (facilityDb 25)
  = Returned [Storage.mk 1 1 7 (-5) 1000].
Proof. reflexivity. Qed.

(** ** The pallet mutations *)

Lemma Array_find_Some {A} (P : A → Prop) `{∀ x, Decision (P x)}
    (l : list A) (x : A) :
  Array_find P l = Some x → x ∈ l ∧ P x.
Proof.
  unfold Array_find. intros ([i y] & Hfind & ->)%fmap_Some.
  apply list_find_Some in Hfind as (Hi & HP & _).
  split; [by eapply list_elem_of_lookup_2|done].
Qed.

Lemma Array_find_None {A} (P : A → Prop) `{∀ x, Decision (P x)} (l : list A) :
  Array_find P l = None ↔ ∀ x, x ∈ l → ¬ P x.
Proof.
  unfold Array_find. rewrite fmap_None, list_find_None, Forall_forall. done.
Qed.

Lemma Storage_bulkCreate_storage (now : Z) (rows : list NewStorage.t)
    (db : Database) :
  ∃ new, storage (Storage_bulkCreate now rows db) = storage db ++ new
         ∧ length new = length rows
         ∧ ∀ i row, rows !! i = Some row →
             new !! i = Some (Storage.mk (storageSeq db + Z.of_nat i)
                                (NewStorage.locationId row)
                                (NewStorage.productId row)
                                (NewStorage.palletAmount row) now).
Proof.
  eexists. split; [reflexivity|]. split; [apply length_imap|].
  intros j row Hj. rewrite list_lookup_imap, Hj. reflexivity.
Qed.

(** What [collectPallets] finds for a product in the current storages of a
    location. *)
Lemma currentStorages_find_None (db : Database) (locationId productId : Z) :
  noSnapshot db locationId productId →
  Array_find (λ storage, Storage.productId storage = productId)
             (currentStorages db locationId) = None.
Proof.
  intros Hnone. apply Array_find_None. intros s Hs Hp.
  apply list_elem_of_filter in Hs as [Hlatest _].
  apply inLatest_spec in Hlatest as [(s0 & Hs0 & Hp0 & _) _].
  apply list_elem_of_filter in Hs0 as [Hl0 Hin0].
  apply (Hnone s0 Hin0). split; congruence.
Qed.

Lemma currentStorages_find_latest (db : Database) (locationId productId : Z)
    (s : Storage.t) :
  latestAt db locationId productId s → sameQuantityAtInstant db s →
  ∃ s1, Array_find (λ storage, Storage.productId storage = productId)
                   (currentStorages db locationId) = Some s1
        ∧ Storage.palletAmount s1 = Storage.palletAmount s.
Proof.
  intros (Hin & Hl & Hp & Hle) Hsame.
  assert (Hcur : s ∈ currentStorages db locationId).
  { apply list_elem_of_filter. split; [|done]. apply inLatest_spec. split.
    - exists s. repeat split; [|done..]. apply list_elem_of_filter. done.
    - intros s' [Hl' Hs']%list_elem_of_filter Hp'. apply Hle; congruence. }
  destruct (Array_find (λ storage, Storage.productId storage = productId)
                       (currentStorages db locationId)) as [s1|] eqn:Hfind.
  - exists s1. split; [done|].
    apply Array_find_Some in Hfind as [Hs1 Hp1].
    apply list_elem_of_filter in Hs1 as [Hlatest Hin1].
    apply inLatest_spec in Hlatest as [(s0 & Hs0 & Hp0 & Ht0) Hle1].
    apply list_elem_of_filter in Hs0 as [Hl0 Hin0].
    apply Hsame; [done|congruence|].
    assert (Storage.createdAt s ≤ Storage.createdAt s1).
    { apply Hle1; [|congruence]. apply list_elem_of_filter. done. }
    assert (Storage.createdAt s0 ≤ Storage.createdAt s).
    { apply Hle; [done|done|congruence]. }
    lia.
  - exfalso. rewrite Array_find_None in Hfind. by apply (Hfind s Hcur).
Qed.

(** C3, as the code has it: with the role check passed, [addPallets]
    appends one snapshot per input row that stores the amount of the row as
    it is supplied (nothing is added to it), and [collectPallets] appends
    one snapshot per input row that stores the amount of the row when the
    key has no snapshot yet, and the latest quantity of the key plus the
    amount of the row when that latest quantity is the only one recorded
    for the product at that instant. *)
Theorem pallets_stored_quantities
    (MyContext : Type) (checkHasRole : MyContext → option string)
    (context : MyContext) (now : Z) (storageInput : StorageInput.t)
    (db : Database) :
  checkHasRole context = None →
  let locationId := StorageInput.locationId storageInput in
  let rows := StorageInput.storageRows storageInput in
  (∃ new,
      storage (addPallets MyContext checkHasRole context now storageInput db).2
      = storage db ++ new
      ∧ length new = length rows
      ∧ ∀ i row, rows !! i = Some row →
          ∃ r, new !! i = Some r
               ∧ Storage.locationId r = locationId
               ∧ Storage.productId r = StorageRowInput.productId row
               ∧ Storage.createdAt r = now
               ∧ Storage.palletAmount r = StorageRowInput.palletAmount row)
  ∧ (∃ new,
      storage (collectPallets MyContext checkHasRole context now storageInput db).2
      = storage db ++ new
      ∧ length new = length rows
      ∧ ∀ i row, rows !! i = Some row →
          ∃ r, new !! i = Some r
               ∧ Storage.locationId r = locationId
               ∧ Storage.productId r = StorageRowInput.productId row
               ∧ Storage.createdAt r = now
               ∧ (noSnapshot db locationId (StorageRowInput.productId row) →
                  Storage.palletAmount r = StorageRowInput.palletAmount row)
               ∧ (∀ s, latestAt db locationId (StorageRowInput.productId row) s →
                       sameQuantityAtInstant db s →
                       Storage.palletAmount r
                       = Storage.palletAmount s
                         + StorageRowInput.palletAmount row)).
Proof.
  intros Hrole locationId rows. split.
  - unfold addPallets. rewrite Hrole. cbn [snd].
    match goal with |- context [Storage_bulkCreate now ?news db] =>
      destruct (Storage_bulkCreate_storage now news db)
        as (new & Hstorage & Hlen & Hnew) end.
    exists new. split; [done|]. split; [by rewrite Hlen, length_fmap|].
    intros i row Hi. eexists. split.
    { apply Hnew. rewrite list_lookup_fmap. fold rows. rewrite Hi. reflexivity. }
    done.
  - unfold collectPallets. rewrite Hrole. cbn [snd].
    match goal with |- context [Storage_bulkCreate now ?news db] =>
      destruct (Storage_bulkCreate_storage now news db)
        as (new & Hstorage & Hlen & Hnew) end.
    exists new. split; [done|]. split; [by rewrite Hlen, length_fmap|].
    intros i row Hi. eexists. split.
    { apply Hnew. rewrite list_lookup_fmap. fold rows. rewrite Hi. reflexivity. }
    cbn [Storage.locationId Storage.productId Storage.createdAt
         Storage.palletAmount NewStorage.locationId NewStorage.productId
         NewStorage.palletAmount].
    do 3 (split; [done|]). fold locationId. split.
    + intros Hnone. by rewrite currentStorages_find_None.
    + intros s Hlatest Hsame.
      destruct (currentStorages_find_latest _ _ _ _ Hlatest Hsame)
        as (s1 & -> & <-).
      case_decide; lia.
Qed.

Lemma pallets_stored_quantities_witness :
  ∃ r, storage (collectPallets unit (λ _, None) tt 2000 fivePallets ledgerDb).2
       !! 1%nat = Some r
       ∧ Storage.palletAmount r = 20 + 5.
Proof.
  destruct (pallets_stored_quantities unit (λ _, None) tt 2000 fivePallets
              ledgerDb eq_refl)
    as [_ (new & Hstorage & Hlen & Hnew)].
  destruct (Hnew 0%nat (StorageRowInput.mk 7 5) eq_refl)
    as (r & Hr & _ & _ & _ & _ & Hsum).
  exists r. split.
  - rewrite Hstorage. exact Hr.
  - apply (Hsum (Storage.mk 1 1 7 20 1000)).
    + split; [left|]. do 2 (split; [reflexivity|]).
      intros s' ->%list_elem_of_singleton _ _. simpl. lia.
    + intros s' ->%list_elem_of_singleton _ _. reflexivity.
Defined.

(** C3, as the specification words it, fails: on a key that holds 20
    pallets, [addPallets] with 5 stores 5 and not 20 + 5, and
    [collectPallets] with 5 stores 25 and not the supplied 5. *)
Lemma pallets_roles_exchanged :
  currentQuantity ledgerDb 1 7 = 20
  ∧ storedQuantities ledgerDb
      (addPallets unit (λ _, None) tt 2000 fivePallets ledgerDb).2
    ≠ [currentQuantity ledgerDb 1 7 + 5]
  ∧ storedQuantities ledgerDb
      (collectPallets unit (λ _, None) tt 2000 fivePallets ledgerDb).2
    ≠ [5].
Proof. split; [reflexivity|]. split; intros [=]. Qed.

Example addPallets_stores_input :
  storage (addPallets unit (λ _, None) tt 2000 fivePallets ledgerDb).2
  = [Storage.mk 1 1 7 20 1000; Storage.mk 2 1 7 5 2000].
Proof. reflexivity. Qed.

Example collectPallets_stores_sum :
  storage (collectPallets unit (λ _, None) tt 2000 fivePallets ledgerDb).2
  = [Storage.mk 1 1 7 20 1000; Storage.mk 2 1 7 25 2000].
Proof. reflexivity. Qed.

(** ** Daily reports *)

Lemma dailyReportsFrom_eq zone endDate location products d :
  dailyReportsFrom zone endDate location products d
  = if decide (d ≤ endDate)
    then
      let productReports := createProductReports location d products in
      DailyReport.mk d productReports
        (foldl (λ total report, total + ProductReport.palletAmount report)
               0 productReports)
        (foldl (λ total report, total + ProductReport.cost report)
               0 productReports)
      :: dailyReportsFrom zone endDate location products (setDate_next zone d)
    else [].
Proof.
  rewrite dailyReportsFrom_equation_1.
  destruct (decide (d ≤ endDate)); reflexivity.
Qed.

Lemma dailyReportsFrom_after zone endDate location products d :
  endDate < d → dailyReportsFrom zone endDate location products d = [].
Proof.
  intros Hlt. rewrite dailyReportsFrom_eq.
  destruct (decide (d ≤ endDate)); [lia|reflexivity].
Qed.

(** In a zone without clock change every local day lasts 24 hours. *)
Lemma setDate_next_fixed zone d :
  fixedOffset zone → setDate_next zone d = d + msPerDay.
Proof.
  intros [offset Hoffset]. unfold setDate_next, UTC, LocalTime.
  destruct (Hoffset d) as [-> _].
  destruct (Hoffset (d + offset + msPerDay)) as [_ ->]. lia.
Qed.

Lemma fixedOffset_utc : fixedOffset utc.
Proof. by exists 0. Qed.

Lemma dailyReportsFrom_dates zone location products (k : nat) :
  fixedOffset zone →
  ∀ d endDate,
    d + Z.of_nat k * msPerDay ≤ endDate < d + (Z.of_nat k + 1) * msPerDay →
    DailyReport.date <$> dailyReportsFrom zone endDate location products d
    = (λ i : nat, d + Z.of_nat i * msPerDay) <$> seq 0 (S k).
Proof.
  intros Hfixed.
  induction k as [|k IH]; intros d endDate Hrange;
    rewrite dailyReportsFrom_eq, setDate_next_fixed by done;
    (destruct (decide (d ≤ endDate)); [|unfold msPerDay in *; lia]).
  - rewrite dailyReportsFrom_after by lia.
    cbn [fmap list_fmap seq DailyReport.date]. f_equal. lia.
  - rewrite fmap_cons. cbn [DailyReport.date].
    rewrite IH by (unfold msPerDay in *; lia).
    change (seq 0 (S (S k))) with (0%nat :: seq 1 (S k)).
    rewrite fmap_cons. f_equal; [lia|].
    rewrite <- fmap_S_seq, <- list_fmap_compose.
    apply list_fmap_ext. intros _ i _. cbn [compose]. lia.
Qed.


Lemma calendar_range (startDate endDate : Z) :
  isCalendarDate startDate → isCalendarDate endDate → startDate ≤ endDate →
  startDate
  + Z.of_nat (Z.to_nat ((endDate - startDate) / msPerDay)) * msPerDay
  = endDate.
Proof.
  unfold isCalendarDate. intros Hs He Hle.
  assert (Hmod : (endDate - startDate) `mod` msPerDay = 0).
  { rewrite Zminus_mod, Hs, He. reflexivity. }
  apply Z.div_exact in Hmod; [|unfold msPerDay; lia].
  assert (0 ≤ (endDate - startDate) / msPerDay).
  { apply Z.div_pos; [lia|unfold msPerDay; lia]. }
  rewrite Z2Nat.id by done. clear Hs He.
  set (q := (endDate - startDate) / msPerDay) in *. clearbody q.
  rewrite (Z.mul_comm q), <- Hmod. lia.
Qed.

Lemma createDailyReports_dates zone db startDate endDate location :
  fixedOffset zone →
  isCalendarDate startDate → isCalendarDate endDate → startDate ≤ endDate →
  DailyReport.date <$> createDailyReports zone db startDate endDate location
  = calendarDays startDate endDate.
Proof.
  intros Hfixed Hs He Hle. unfold createDailyReports, calendarDays.
  apply dailyReportsFrom_dates; [done|].
  pose proof (calendar_range startDate endDate Hs He Hle) as Hrange.
  rewrite Z.mul_add_distr_r, Z.mul_1_l.
  assert (0 < msPerDay) by reflexivity. lia.
Qed.

(** The reports of the locations are built from the locations alone. *)
Lemma reportsOf_report (zone : TimeZone.t) (input : ReportInput.t)
    (db : Database) (lr : LocationReport.t) :
  lr ∈ reportsOf (report zone input db) →
  ∃ location,
    lr = LocationReport.mk location
           (createDailyReports zone db (ReportInput.startDate input)
              (ReportInput.endDate input) location)
           (foldl (λ total report, total + DailyReport.totalDailyCost report) 0
              (createDailyReports zone db (ReportInput.startDate input)
                 (ReportInput.endDate input) location)).
Proof.
  unfold report, reportsOf. cbn [Report.locationReports].
  intros (location & -> & _)%list_elem_of_fmap. by exists location.
Qed.

Lemma pushLocationPrice_length locationPrice locations :
  length (pushLocationPrice locationPrice locations) = length locations.
Proof.
  induction locations as [|l rest IH]; [done|]. simpl.
  case_decide; simpl; by rewrite ?IH.
Qed.

Lemma pushLocationPrices_length locationPrices locations :
  length (foldl (λ locations locationPrice,
                   pushLocationPrice locationPrice locations)
                locations locationPrices)
  = length locations.
Proof.
  revert locations.
  induction locationPrices as [|p prices IH]; intros locations; [done|].
  simpl. rewrite IH. apply pushLocationPrice_length.
Qed.

Lemma report_length (zone : TimeZone.t) (input : ReportInput.t)
    (db : Database) :
  length (reportsOf (report zone input db))
  = length (filter (λ l, Location.locationId l ∈ ReportInput.locationIds input)
                   (location db)).
Proof.
  unfold report, reportsOf, reportLocations. cbn [Report.locationReports].
  by rewrite length_fmap, pushLocationPrices_length, length_fmap.
Qed.




(** ** The report *)

Lemma report_empty_range (zone : TimeZone.t) (input : ReportInput.t)
    (db : Database) :
  ReportInput.endDate input < ReportInput.startDate input →
  report zone input db
  = Returned (Report.mk ((λ location, LocationReport.mk location [] 0)
                           <$> reportLocations input db)).
Proof.
  intros Hlt. unfold report, createDailyReports. do 2 f_equal.
  apply list_fmap_ext. intros _ location _.
  by rewrite dailyReportsFrom_after.
Qed.

(** C4, as the code has it: a report over a range with
    [startDate > endDate] raises nothing; it is returned, with one location
    report per matching location, each without any daily report and with a
    total cost of 0. *)
Theorem report_backwards_range_empty (zone : TimeZone.t)
    (input : ReportInput.t) (db : Database) :
  ReportInput.endDate input < ReportInput.startDate input →
  ∃ r, report zone input db = Returned r
       ∧ length (Report.locationReports r)
         = length (filter (λ l, Location.locationId l
                                ∈ ReportInput.locationIds input) (location db))
       ∧ ∀ lr, lr ∈ Report.locationReports r →
               LocationReport.dailyReports lr = []
               ∧ LocationReport.totalCost lr = 0.
Proof.
  intros Hlt. pose proof (report_length zone input db) as Hlength.
  rewrite (report_empty_range zone input db Hlt) in *.
  eexists. split; [reflexivity|]. split; [exact Hlength|].
  intros lr (location & -> & _)%list_elem_of_fmap. done.
Qed.

Lemma report_backwards_range_empty_witness :
  ∃ r, report utc backwardsInput ledgerDb = Returned r
       ∧ length (Report.locationReports r) = 1%nat
       ∧ ∀ lr, lr ∈ Report.locationReports r →
               LocationReport.dailyReports lr = []
               ∧ LocationReport.totalCost lr = 0.
Proof.
  apply (report_backwards_range_empty utc backwardsInput ledgerDb).
  reflexivity.
Defined.

(** C4, as the specification words it, fails: asked for location 1 from
    day 20 back to day 10, the report query raises no error. *)
Lemma report_backwards_range_returns :
  ReportInput.startDate backwardsInput > ReportInput.endDate backwardsInput
  ∧ ¬ is_Raised (report utc backwardsInput ledgerDb).
Proof. split; [reflexivity|]. intros H. exact H. Qed.

Lemma pushLocationPrice_locationIds (p : LocationPrice.t)
    (locations : list Location.t) :
  Location.locationId <$> pushLocationPrice p locations
  = Location.locationId <$> locations.
Proof.
  induction locations as [|l rest IH]; [done|]. cbn [pushLocationPrice].
  case_decide; rewrite !fmap_cons; [done|]. by rewrite IH.
Qed.

Lemma reportLocations_locationIds (input : ReportInput.t) (db : Database) :
  Location.locationId <$> reportLocations input db
  = Location.locationId
      <$> filter (λ l, Location.locationId l ∈ ReportInput.locationIds input)
                 (location db).
Proof.
  unfold reportLocations.
  generalize (priceQuery (locationPrice db) (ReportInput.locationIds input)
                (ReportInput.startDate input) (ReportInput.endDate input)).
  intros prices.
  transitivity
    (Location.locationId
       <$> ((λ l, Location.set_storages l
                    (filter (λ s, Storage.locationId s = Location.locationId l)
                            (storage db)))
              <$> filter (λ l, Location.locationId l
                               ∈ ReportInput.locationIds input) (location db))).
  - generalize ((λ l, Location.set_storages l
                        (filter (λ s, Storage.locationId s
                                      = Location.locationId l) (storage db)))
                  <$> filter (λ l, Location.locationId l
                                   ∈ ReportInput.locationIds input)
                             (location db)).
    induction prices as [|p prices IH]; intros locations; [done|].
    cbn [foldl]. by rewrite IH, pushLocationPrice_locationIds.
  - rewrite <- list_fmap_compose. by apply list_fmap_ext.
Qed.

(** C6: the report is returned with a location report for every requested
    location of the location table; the daily reports of each location
    report begin with the one of [startDate] when [startDate ≤ endDate],
    and its [totalCost] is the sum of [totalDailyCost] over its daily
    reports. *)
Theorem report_totalCost_sum (zone : TimeZone.t) (input : ReportInput.t)
    (db : Database) :
  ∃ r, report zone input db = Returned r
       ∧ (λ lr, Location.locationId (LocationReport.location lr))
           <$> Report.locationReports r
         = Location.locationId
             <$> filter (λ l, Location.locationId l
                              ∈ ReportInput.locationIds input) (location db)
       ∧ (∀ l, l ∈ location db →
               Location.locationId l ∈ ReportInput.locationIds input →
               ∃ lr, lr ∈ Report.locationReports r
                     ∧ Location.locationId (LocationReport.location lr)
                       = Location.locationId l)
       ∧ ∀ lr, lr ∈ Report.locationReports r →
               (ReportInput.startDate input ≤ ReportInput.endDate input →
                head (DailyReport.date <$> LocationReport.dailyReports lr)
                = Some (ReportInput.startDate input))
               ∧ LocationReport.totalCost lr
                 = sumZ (DailyReport.totalDailyCost
                           <$> LocationReport.dailyReports lr).
Proof.
  pose proof (reportsOf_report zone input db) as Hreports.
  assert (Hids : (λ lr, Location.locationId (LocationReport.location lr))
                   <$> reportsOf (report zone input db)
                 = Location.locationId
                     <$> filter (λ l, Location.locationId l
                                      ∈ ReportInput.locationIds input)
                                (location db)).
  { unfold report, reportsOf. cbn [Report.locationReports].
    rewrite <- list_fmap_compose.
    change ((λ lr, Location.locationId (LocationReport.location lr)) ∘ _)
      with Location.locationId.
    apply reportLocations_locationIds. }
  destruct (report zone input db) as [r|m] eqn:Hreport; [|discriminate Hreport].
  cbn [reportsOf] in Hreports, Hids.
  exists r. split; [reflexivity|]. split; [exact Hids|]. split.
  - intros l Hl Hrequested.
    assert (Hin : Location.locationId l
                  ∈ (λ lr, Location.locationId (LocationReport.location lr))
                      <$> Report.locationReports r).
    { rewrite Hids. apply list_elem_of_fmap_2.
      by apply list_elem_of_filter. }
    apply list_elem_of_fmap in Hin as (lr & Hid & Hlr). by exists lr.
  - intros lr Hlr.
    destruct (Hreports lr Hlr) as (location & ->).
    cbn [LocationReport.totalCost LocationReport.dailyReports]. split.
    + intros Hle. unfold createDailyReports.
      rewrite dailyReportsFrom_eq, decide_True by done. reflexivity.
    + rewrite foldl_add_sumZ. lia.
Qed.

Lemma report_totalCost_sum_witness :
  ∃ lr, lr ∈ reportsOf
               (report utc (ReportInput.mk (10 * msPerDay) (12 * msPerDay) [1])
                  ledgerDb)
        ∧ Location.locationId (LocationReport.location lr) = 1
        ∧ head (DailyReport.date <$> LocationReport.dailyReports lr)
          = Some (10 * msPerDay)
        ∧ LocationReport.totalCost lr
          = sumZ (DailyReport.totalDailyCost
                    <$> LocationReport.dailyReports lr).
Proof.
  destruct (report_totalCost_sum utc
              (ReportInput.mk (10 * msPerDay) (12 * msPerDay) [1]) ledgerDb)
    as (r & Hr & _ & Hrequested & Hcost).
  destruct (Hrequested
              (Location.mk 1 "Kuljetus Korhonen" "Address 1" "01600" "Vantaa"
                 "Kuljetusliike" None []))
    as (lr & Hlr & Hid); [apply list_elem_of_here|vm_compute; left|].
  destruct (Hcost lr Hlr) as [Hhead Hsum].
  exists lr. rewrite Hr. cbn [reportsOf].
  split; [exact Hlr|]. split; [exact Hid|]. split; [|exact Hsum].
  apply Hhead. vm_compute. discriminate.
Defined.

(** Every daily report carries the product reports made for its date, and
    its two totals are their sums. *)
Lemma dailyReportsFrom_entries zone endDate location products d :
  Forall (λ dr,
            DailyReport.productReports dr
            = createProductReports location (DailyReport.date dr) products
            ∧ DailyReport.totalDailyPallets dr
              = sumZ (ProductReport.palletAmount
                        <$> DailyReport.productReports dr)
            ∧ DailyReport.totalDailyCost dr
              = sumZ (ProductReport.cost <$> DailyReport.productReports dr))
         (dailyReportsFrom zone endDate location products d).
Proof.
  funelim (dailyReportsFrom zone endDate location products d).
  - constructor; [|assumption].
    cbn [DailyReport.productReports DailyReport.date
         DailyReport.totalDailyPallets DailyReport.totalDailyCost].
    rewrite !foldl_add_sumZ. split; [done|]. split; lia.
  - constructor.
Qed.

(** The quantities of the January scenario, day by day. *)
Lemma january_quantity (d : Z) :
  19723 * msPerDay ≤ d →
  quantityAsOf januaryDb 1 1 d
  = if decide (d < 19746 * msPerDay) then Some 60 else Some 70.
Proof.
  intros Hd. unfold quantityAsOf, januaryDb, msPerDay in *. cbn [storage].
  rewrite !filter_cons, filter_nil.
  cbn [Storage.locationId Storage.productId Storage.createdAt].
  repeat case_decide; try lia; reflexivity.
Qed.

(** C7 on the scenario of January 2024: on every day of the report the
    quantity of the key as of that day is 60 or 70 (60 as of 2024-01-01 and
    2024-01-23, 70 as of 2024-01-24 and 2024-01-31), yet each of the 31
    daily reports of the location holds the product report (5, 25) of
    [createProductReports], whatever the day. *)
Theorem report_january_constant_quantities :
  ∃ lr, report utc januaryInput januaryDb = Returned (Report.mk [lr])
        ∧ length (LocationReport.dailyReports lr) = 31%nat
        ∧ (∀ dr, dr ∈ LocationReport.dailyReports lr →
                 DailyReport.productReports dr
                 = [ProductReport.mk paristolaatikko 5 25]
                 ∧ (quantityAsOf januaryDb 1 1 (DailyReport.date dr) = Some 60
                    ∨ quantityAsOf januaryDb 1 1 (DailyReport.date dr) = Some 70))
        ∧ quantityAsOf januaryDb 1 1 (19723 * msPerDay) = Some 60
        ∧ quantityAsOf januaryDb 1 1 (19745 * msPerDay) = Some 60
        ∧ quantityAsOf januaryDb 1 1 (19746 * msPerDay) = Some 70
        ∧ quantityAsOf januaryDb 1 1 (19753 * msPerDay) = Some 70.
Proof.
  unfold report.
  destruct (reportLocations januaryInput januaryDb) as [|location [|? ?]] eqn:Hloc;
    [discriminate Hloc| |discriminate Hloc].
  eexists. split; [reflexivity|]. cbn [LocationReport.dailyReports].
  assert (Hdates : DailyReport.date
                     <$> createDailyReports utc januaryDb
                           (ReportInput.startDate januaryInput)
                           (ReportInput.endDate januaryInput) location
                   = calendarDays (19723 * msPerDay) (19753 * msPerDay))
    by (apply createDailyReports_dates;
        [apply fixedOffset_utc|vm_compute; done..]).
  split; [|split].
  - rewrite <- (length_fmap DailyReport.date), Hdates. reflexivity.
  - intros dr Hdr. split.
    + unfold createDailyReports in Hdr.
      pose proof (dailyReportsFrom_entries utc
                    (ReportInput.endDate januaryInput) location
                    (product januaryDb)
                    (ReportInput.startDate januaryInput)) as Hentries.
      rewrite Forall_forall in Hentries.
      destruct (Hentries dr Hdr) as [-> _]. reflexivity.
    + assert (Hday : DailyReport.date dr
                     ∈ calendarDays (19723 * msPerDay) (19753 * msPerDay))
        by (rewrite <- Hdates; by apply list_elem_of_fmap_2).
      apply list_elem_of_fmap in Hday as (i & -> & _).
      rewrite january_quantity by (unfold msPerDay; lia).
      case_decide; auto.
  - rewrite !january_quantity by (unfold msPerDay; lia).
    repeat split; reflexivity.
Qed.

(** ** One row per product: the queries *)

(** C8, as the code has it: the latest-per-product queries return every
    snapshot that carries the greatest [createdAt] of its product (among
    the processing facilities for [availableStorages], at the location for
    [locationsWithStorages]), so at least one row for each product that has
    a snapshot, and exactly one row when the snapshots of the product have
    distinct [createdAt] values; nothing in them looks at the storage id. *)
Theorem latest_rows_per_product (db : Database) :
  (∀ s, s ∈ currentFacilityStorages db ↔ latestFacilitySnapshot db s)
  ∧ (∀ p, heldAtFacility db p →
          (1 ≤ length (filter (λ s, Storage.productId s = p)
                              (currentFacilityStorages db)))%nat)
  ∧ (∀ p, heldAtFacility db p →
          NoDup (Storage.createdAt
                   <$> filter (λ s, atFacility db s ∧ Storage.productId s = p)
                              (storage db)) →
          length (filter (λ s, Storage.productId s = p)
                         (currentFacilityStorages db)) = 1%nat)
  ∧ (∀ l, is_Some (Location_findByPk db l) →
          (∀ s, s ∈ latestStoragesOf db l
                ↔ latestAt db l (Storage.productId s) s)
          ∧ (∀ p, hasSnapshot db l p →
                  NoDup (Storage.createdAt
                           <$> filter (λ s, Storage.locationId s = l
                                            ∧ Storage.productId s = p)
                                      (storage db)) →
                  length (filter (λ s, Storage.productId s = p)
                                 (latestStoragesOf db l)) = 1%nat)).
Proof.
  split; [apply currentFacilityStorages_spec|]. split; [|split].
  - intros p (s & Hs & Hp)%latestFacilitySnapshot_exists.
    apply currentFacilityStorages_spec in Hs.
    assert (Hin : s ∈ filter (λ s, Storage.productId s = p)
                             (currentFacilityStorages db))
      by (apply list_elem_of_filter; done).
    destruct (filter _ (currentFacilityStorages db)); simpl; [|lia].
    by apply not_elem_of_nil in Hin.
  - apply currentFacilityStorages_single.
  - intros l Hlocation. split; [intros s; by apply latestStoragesOf_spec|].
    intros p. by apply latestStoragesOf_single.
Qed.

Lemma latest_rows_per_product_witness :
  length (filter (λ s, Storage.productId s = 7)
                 (currentFacilityStorages (facilityDb 8))) = 1%nat
  ∧ length (filter (λ s, Storage.productId s = 7)
                   (latestStoragesOf (facilityDb 8) 1)) = 1%nat.
Proof.
  destruct (latest_rows_per_product (facilityDb 8))
    as (_ & _ & Hfacility & Hlocation).
  split.
  - apply Hfacility.
    + exists (Storage.mk 1 1 7 20 1000). split; [left|]. split; reflexivity.
    + vm_compute. apply NoDup_singleton.
  - apply (Hlocation 1).
    + vm_compute. by eexists.
    + exists (Storage.mk 1 1 7 20 1000). split; [left|]. split; reflexivity.
    + vm_compute. apply NoDup_singleton.
Defined.

(** C8, as the specification words it, fails: after one request has added
    product 7 twice, both new snapshots share their [createdAt] and both
    latest-per-product queries return the two of them, not the one with the
    highest storage id. *)
Lemma latest_rows_tied :
  storage tiedDb = [Storage.mk 1 1 7 20 1000; Storage.mk 2 1 7 30 1000]
  ∧ currentFacilityStorages tiedDb = storage tiedDb
  ∧ latestStoragesOf tiedDb 1 = storage tiedDb
  ∧ ¬ exactlyOnePerProduct (currentFacilityStorages tiedDb)
  ∧ ¬ exactlyOnePerProduct (latestStoragesOf tiedDb 1).
Proof.
  assert (Hfacility : currentFacilityStorages tiedDb
                      = [Storage.mk 1 1 7 20 1000; Storage.mk 2 1 7 30 1000])
    by (vm_compute; reflexivity).
  assert (Hlocation : latestStoragesOf tiedDb 1
                      = [Storage.mk 1 1 7 20 1000; Storage.mk 2 1 7 30 1000])
    by (vm_compute; reflexivity).
  split; [reflexivity|]. split; [exact Hfacility|]. split; [exact Hlocation|].
  rewrite Hfacility, Hlocation.
  split; intros Hone; specialize (Hone 7 (list_elem_of_here _ _));
    vm_compute in Hone; discriminate Hone.
Qed.

(** ** The ledger is append-only *)

Lemma Storage_bulkCreate_prefix (now : Z) (rows : list NewStorage.t)
    (db : Database) :
  storage db `prefix_of` storage (Storage_bulkCreate now rows db).
Proof. unfold Storage_bulkCreate. cbn [storage]. by apply prefix_app_r. Qed.

Section Append_only.

Variable MyContext : Type.
Variable checkHasRole : MyContext → option string.
Variable checkAdminOrOwner : MyContext → Z → option string.

Lemma collectPallets_prefix context now storageInput db :
  storage db
  `prefix_of` storage (collectPallets MyContext checkHasRole context now
                         storageInput db).2.
Proof.
  unfold collectPallets. destruct (checkHasRole context); cbn [snd];
    [done|apply Storage_bulkCreate_prefix].
Qed.

Lemma addPallets_prefix context now storageInput db :
  storage db
  `prefix_of` storage (addPallets MyContext checkHasRole context now
                         storageInput db).2.
Proof.
  unfold addPallets. destruct (checkHasRole context); cbn [snd];
    [done|apply Storage_bulkCreate_prefix].
Qed.

Lemma addStorageToLocation_try_prefix now locationId productId palletAmount db :
  storage db
  `prefix_of` storage (addStorageToLocation_try now locationId productId
                         palletAmount db).2.
Proof.
  unfold addStorageToLocation_try.
  destruct (Location_findByPk db locationId), (Product_findByPk db productId);
    cbn [snd]; try done.
  destruct (Array_find _ (storage db)); cbn [snd]; [done|].
  unfold Storage_create. cbn [snd storage]. by apply prefix_app_r.
Qed.

Lemma addStorageToLocation_prefix context now locationId productId palletAmount db :
  storage db
  `prefix_of` storage (addStorageToLocation MyContext checkAdminOrOwner context
                         now locationId productId palletAmount db).2.
Proof.
  unfold addStorageToLocation.
  destruct (checkAdminOrOwner context locationId); cbn [snd]; [done|].
  pose proof (addStorageToLocation_try_prefix now locationId productId
                palletAmount db) as Hprefix.
  destruct (addStorageToLocation_try now locationId productId palletAmount db).
  exact Hprefix.
Qed.

Lemma serve_prefix context db r :
  storage db
  `prefix_of` storage (serve MyContext checkHasRole checkAdminOrOwner context db r).
Proof.
  destruct r; cbn [serve];
    auto using collectPallets_prefix, addPallets_prefix,
               addStorageToLocation_prefix.
Qed.

(** C9: whatever requests are served, in whatever order and with whatever
    contexts, the storage table only grows at its end: the rows it held
    before are all still there, unchanged and at their positions, so every
    snapshot ever recorded for a key can still be read. *)
Theorem storage_append_only (run : list (MyContext * request)) (db : Database) :
  let db' := serveAll MyContext checkHasRole checkAdminOrOwner db run in
  storage db `prefix_of` storage db'
  ∧ (∀ i s, storage db !! i = Some s → storage db' !! i = Some s)
  ∧ (∀ l p, filter (λ s, Storage.locationId s = l ∧ Storage.productId s = p)
                   (storage db)
            `prefix_of`
            filter (λ s, Storage.locationId s = l ∧ Storage.productId s = p)
                   (storage db')).
Proof.
  cbv zeta.
  assert (Hprefix : storage db `prefix_of`
            storage (serveAll MyContext checkHasRole checkAdminOrOwner db run)).
  { revert db. induction run as [|[context r] run IH]; intros db; [done|].
    unfold serveAll in *. cbn [foldl fst snd].
    etrans; [apply (serve_prefix context db r)|apply IH]. }
  split; [exact Hprefix|]. split.
  - intros i s Hi. by eapply prefix_lookup_Some.
  - intros l p. destruct Hprefix as [new ->]. rewrite filter_app.
    by apply prefix_app_r.
Qed.

End Append_only.

Lemma storage_append_only_witness :
  storage ledgerDb
  `prefix_of`
  storage (serveAll unit (λ _, None) (λ _ _, None) ledgerDb
             [ (tt, AddPallets 2000 fivePallets);
               (tt, AvailableStorages);
               (tt, CollectPallets 3000 fivePallets);
               (tt, AddStorageToLocation 4000 1 7 3) ]).
Proof.
  exact (proj1 (storage_append_only unit (λ _, None) (λ _ _, None)
                  [ (tt, AddPallets 2000 fivePallets);
                    (tt, AvailableStorages);
                    (tt, CollectPallets 3000 fivePallets);
                    (tt, AddStorageToLocation 4000 1 7 3) ] ledgerDb)).
Defined.

Example ledger_after_requests :
  storage (serveAll unit (λ _, None) (λ _ _, None) ledgerDb
             [ (tt, AddPallets 2000 fivePallets);
               (tt, AvailableStorages);
               (tt, CollectPallets 3000 fivePallets);
               (tt, AddStorageToLocation 4000 1 7 3) ])
  = [ Storage.mk 1 1 7 20 1000; Storage.mk 2 1 7 5 2000;
      Storage.mk 3 1 7 10 3000 ].
Proof. reflexivity. Qed.

(** ** [addStorageToLocation] *)

Lemma findOne_storage_Some (db : Database) (l p : Z) :
  hasSnapshot db l p →
  is_Some (Array_find (λ s, Storage.locationId s = l ∧ Storage.productId s = p)
                      (storage db)).
Proof.
  intros (s & Hs & Hl & Hp).
  destruct (Array_find _ (storage db)) as [s'|] eqn:Hfind; [by eexists|].
  rewrite Array_find_None in Hfind. by destruct (Hfind s Hs).
Qed.

Lemma findOne_storage_None (db : Database) (l p : Z) :
  noSnapshot db l p ↔
  Array_find (λ s, Storage.locationId s = l ∧ Storage.productId s = p)
             (storage db) = None.
Proof. by rewrite Array_find_None. Qed.

(** C10, as the code has it: with the ownership check passed, when the
    pair (locationId, productId) already has a storage row the mutation
    raises and leaves the database as it was; the error
    'Product already exists for this Location' is the one thrown inside
    the [try] block when the location and the product exist, and the
    [catch] block replaces it, so the caller receives
    'Error adding Storage to Location'. A row is created only when the
    pair has none: then, the location and the product existing, the one
    new row is appended and returned. *)
Theorem addStorageToLocation_existing_pair
    (MyContext : Type) (checkAdminOrOwner : MyContext → Z → option string)
    (context : MyContext) (now locationId productId palletAmount : Z)
    (db : Database) :
  checkAdminOrOwner context locationId = None →
  let result := addStorageToLocation MyContext checkAdminOrOwner context
                  now locationId productId palletAmount db in
  let newStorage := Storage.mk (storageSeq db) locationId productId
                      palletAmount now in
  (hasSnapshot db locationId productId →
     result = (Raised "Error adding Storage to Location", db)
     ∧ (is_Some (Location_findByPk db locationId) →
        is_Some (Product_findByPk db productId) →
        addStorageToLocation_try now locationId productId palletAmount db
        = (Raised "Product already exists for this Location", db)))
  ∧ (storage result.2 ≠ storage db → noSnapshot db locationId productId)
  ∧ (noSnapshot db locationId productId →
     is_Some (Location_findByPk db locationId) →
     is_Some (Product_findByPk db productId) →
     result.1 = Returned newStorage
     ∧ storage result.2 = storage db ++ [newStorage]).
Proof.
  intros Hcheck result newStorage. subst result.
  unfold addStorageToLocation, addStorageToLocation_try. rewrite Hcheck.
  split; [|split].
  - intros Hhas. destruct (findOne_storage_Some db _ _ Hhas) as [s Hfind].
    split.
    + destruct (Location_findByPk db locationId),
        (Product_findByPk db productId); try reflexivity.
      by rewrite Hfind.
    + intros [l ->] [p ->]. by rewrite Hfind.
  - intros Hchanged. apply findOne_storage_None.
    destruct (Array_find _ (storage db)) as [s|] eqn:Hfind; [|done].
    exfalso. apply Hchanged.
    destruct (Location_findByPk db locationId),
      (Product_findByPk db productId); rewrite ?Hfind; reflexivity.
  - intros Hnone%findOne_storage_None [l ->] [p ->]. rewrite Hnone.
    split; reflexivity.
Qed.

Lemma addStorageToLocation_existing_pair_witness :
  addStorageToLocation unit (λ _ _, None) tt 2000 1 7 3 ledgerDb
  = (Raised "Error adding Storage to Location", ledgerDb)
  ∧ addStorageToLocation_try 2000 1 7 3 ledgerDb
    = (Raised "Product already exists for this Location", ledgerDb).
Proof.
  assert (Hhas : hasSnapshot ledgerDb 1 7).
  { exists (Storage.mk 1 1 7 20 1000). split; [left|]. split; reflexivity. }
  destruct (addStorageToLocation_existing_pair unit (λ _ _, None) tt
              2000 1 7 3 ledgerDb eq_refl) as [Hexisting _].
  destruct (Hexisting Hhas) as [Hresult Htry].
  split; [exact Hresult|]. apply Htry; vm_compute; by eexists.
Defined.

(** C10, as first stated, fails: location 1 already holds product 7, and
    the error the mutation raises is not
    'Product already exists for this Location'. *)
Lemma addStorageToLocation_error_replaced :
  hasSnapshot ledgerDb 1 7
  ∧ (addStorageToLocation unit (λ _ _, None) tt 2000 1 7 3 ledgerDb).1
    ≠ Raised "Product already exists for this Location".
Proof.
  split.
  - exists (Storage.mk 1 1 7 20 1000). split; [left|]. split; reflexivity.
  - vm_compute. discriminate.
Qed.

Example addStorageToLocation_new_pair :
  addStorageToLocation unit (λ _ _, None) tt 2000 1 7 3
    (mkDatabase (location ledgerDb) (product ledgerDb) [] [] [] [] 1)
  = (Returned (Storage.mk 1 1 7 3 2000),
     mkDatabase (location ledgerDb) (product ledgerDb)
       [Storage.mk 1 1 7 3 2000] [] [] [] 2).
Proof. reflexivity. Qed.

(** * Further properties *)

(** ** The storage ledger under any run of calls *)

Section Runs.

Variable MyContext : Type.
Variable checkHasRole : MyContext → option string.
Variable checkAdminOrOwner : MyContext → Z → option string.

(** What a call outside the storage ledger leaves of the tables. *)
Lemma perform_other_tables context db c :
  match c with
  | Call_request _ => True
  | _ =>
      storage (perform MyContext checkHasRole checkAdminOrOwner context db c)
      = storage db
      ∧ storageSeq (perform MyContext checkHasRole checkAdminOrOwner context db c)
        = storageSeq db
  end.
Proof.
  destruct c as [r|orderId|orderId|newOrderId now input|newId price|locationId input];
    [done|..]; cbn [perform].
  - unfold OrderResolvers.collectOrder.
    destruct (checkHasRole context); [done|].
    destruct (Order_findWithRows db orderId); done.
  - unfold OrderResolvers.cancelOrder.
    destruct (checkHasRole context); [done|].
    destruct (Order_findWithRows db orderId); done.
  - unfold OrderResolvers.addOrder.
    destruct (checkAdminOrOwner context _); [done|].
    cbn. unfold OrderRow_bulkCreate. case_decide; done.
  - unfold addLocationPrice. destruct (checkAdminOrOwner context _); done.
  - unfold LocationResolvers.updateLocation.
    destruct (checkAdminOrOwner context _); [done|].
    destruct (Location_findByPk db locationId); done.
Qed.

End Runs.

Section Append_only_calls.

Variable MyContext : Type.
Variable checkHasRole : MyContext → option string.
Variable checkAdminOrOwner : MyContext → Z → option string.

Lemma serve_other_tables context db r :
  let db' := serve MyContext checkHasRole checkAdminOrOwner context db r in
  locationPrice db' = locationPrice db ∧ orderRow db' = orderRow db
  ∧ order db' = order db ∧ location db' = location db.
Proof.
  destruct r; cbn [serve]; try done.
  - unfold collectPallets. destruct (checkHasRole context); done.
  - unfold addPallets. destruct (checkHasRole context); done.
  - unfold addStorageToLocation, addStorageToLocation_try.
    destruct (checkAdminOrOwner context locationId); [done|].
    destruct (Location_findByPk db locationId), (Product_findByPk db productId);
      try done.
    destruct (Array_find _ (storage db)); done.
Qed.

Lemma perform_append context db c :
  let db' := perform MyContext checkHasRole checkAdminOrOwner context db c in
  storage db `prefix_of` storage db'
  ∧ locationPrice db `prefix_of` locationPrice db'
  ∧ orderRow db `prefix_of` orderRow db'.
Proof.
  pose proof (perform_other_tables MyContext checkHasRole checkAdminOrOwner
                context db c) as Hstorage.
  destruct c as [r|orderId|orderId|newOrderId now input|newId price|locationId input];
    cbn [perform] in *.
  - destruct (serve_other_tables context db r) as (-> & -> & _).
    split; [apply serve_prefix|done].
  - destruct Hstorage as [-> _]. split; [done|].
    unfold OrderResolvers.collectOrder.
    destruct (checkHasRole context); [done|].
    destruct (Order_findWithRows db orderId); done.
  - destruct Hstorage as [-> _]. split; [done|].
    unfold OrderResolvers.cancelOrder.
    destruct (checkHasRole context); [done|].
    destruct (Order_findWithRows db orderId); done.
  - destruct Hstorage as [-> _]. split; [done|].
    unfold OrderResolvers.addOrder.
    destruct (checkAdminOrOwner context _); [done|].
    cbn. unfold OrderRow_bulkCreate. case_decide; cbn; [|done].
    split; [done|]. by apply prefix_app_r.
  - destruct Hstorage as [-> _]. split; [done|].
    unfold addLocationPrice. destruct (checkAdminOrOwner context _); [done|].
    cbn. split; [|done]. by apply prefix_app_r.
  - destruct Hstorage as [-> _]. split; [done|].
    unfold LocationResolvers.updateLocation.
    destruct (checkAdminOrOwner context _); [done|].
    destruct (Location_findByPk db locationId); done.
Qed.

(** X2: under any run of calls - the requests of the storage ledger and the
    mutations of orders, prices and locations - the storage table, the
    price table and the order-row table only grow at their end; and the
    mutations of orders, prices and locations leave the storage table as it
    is: collecting or cancelling an order moves no pallet. *)
Theorem tables_append_only (run : list (MyContext * call)) (db : Database) :
  let db' := performAll MyContext checkHasRole checkAdminOrOwner db run in
  (storage db `prefix_of` storage db'
   ∧ locationPrice db `prefix_of` locationPrice db'
   ∧ orderRow db `prefix_of` orderRow db')
  ∧ (Forall (λ c, match c.2 with Call_request _ => False | _ => True end) run →
     storage db' = storage db).
Proof.
  cbv zeta. split.
  - revert db. induction run as [|[context c] run IH]; intros db; [done|].
    unfold performAll in *. cbn [foldl fst snd].
    destruct (perform_append context db c) as (Hs & Hp & Hr).
    destruct (IH (perform MyContext checkHasRole checkAdminOrOwner context db c))
      as (Hs' & Hp' & Hr').
    split; [by etrans|]. split; by etrans.
  - revert db. induction run as [|[context c] run IH]; intros db Hrun; [done|].
    apply Forall_cons in Hrun as [Hc Hrun].
    unfold performAll in *. cbn [foldl fst snd]. rewrite IH by done.
    pose proof (perform_other_tables MyContext checkHasRole checkAdminOrOwner
                  context db c) as Hsame.
    destruct c; [done|..]; by destruct Hsame.
Qed.

End Append_only_calls.

Lemma tables_append_only_witness :
  storage (performAll unit (λ _, None) (λ _ _, None) (facilityDb 8)
             [ (tt, Call_collectOrder 1); (tt, Call_cancelOrder 2) ])
  = storage (facilityDb 8).
Proof.
  apply (tables_append_only unit (λ _, None) (λ _ _, None)
           [ (tt, Call_collectOrder 1); (tt, Call_cancelOrder 2) ]
           (facilityDb 8)).
  repeat constructor.
Defined.

(** ** The latest snapshots the pallet mutations read *)

(** X3: the current-storages query of [collectPallets] and [addPallets]
    returns the rows of the storage table that share their product and
    their [createdAt] with a latest snapshot of the location: among the
    rows of the location these are exactly its latest snapshots, and a row
    of another location is returned too when it coincides with one. *)
Theorem currentStorages_rows (db : Database) (locationId : Z) (s : Storage.t) :
  (s ∈ currentStorages db locationId
   ↔ s ∈ storage db
     ∧ ∃ s0, latestAt db locationId (Storage.productId s) s0
             ∧ Storage.createdAt s0 = Storage.createdAt s)
  ∧ (Storage.locationId s = locationId →
     s ∈ currentStorages db locationId
     ↔ latestAt db locationId (Storage.productId s) s).
Proof.
  assert (Hrows : s ∈ currentStorages db locationId
            ↔ s ∈ storage db
              ∧ ∃ s0, latestAt db locationId (Storage.productId s) s0
                      ∧ Storage.createdAt s0 = Storage.createdAt s).
  { unfold currentStorages, latestAt.
    rewrite list_elem_of_filter, inLatest_spec. split.
    - intros [[(s0 & [Hl0 Hs0]%list_elem_of_filter & Hp0 & Ht0) Hle] Hs].
      split; [done|]. exists s0. repeat split; [done..| |done].
      intros s' Hs' Hl' Hp'. rewrite Ht0. apply Hle; [|done].
      apply list_elem_of_filter. done.
    - intros [Hs (s0 & (Hs0 & Hl0 & Hp0 & Hle) & Ht0)]. split; [|done]. split.
      + exists s0. repeat split; [|done..]. apply list_elem_of_filter. done.
      + intros s' [Hl' Hs']%list_elem_of_filter Hp'. rewrite <- Ht0.
        by apply Hle. }
  split; [exact Hrows|]. intros Hl. rewrite Hrows. split.
  - intros [Hs (s0 & (Hs0 & Hl0 & Hp0 & Hle) & Ht0)].
    repeat split; [done..|]. intros s' Hs' Hl' Hp'. rewrite <- Ht0. by apply Hle.
  - intros Hlatest. split; [by destruct Hlatest|]. by exists s.
Qed.

Lemma currentStorages_rows_witness :
  Storage.mk 1 1 7 20 1000 ∈ currentStorages ledgerDb 1.
Proof.
  apply (currentStorages_rows ledgerDb 1 (Storage.mk 1 1 7 20 1000));
    [reflexivity|].
  split; [left|]. do 2 (split; [reflexivity|]).
  intros s' ->%list_elem_of_singleton _ _. reflexivity.
Defined.

(** A row of another location among the current storages: at location 2,
    which holds 30 pallets of product 7, [collectPallets] of 5 finds the
    row of location 1 first and stores 20 + 5. *)
Example collectPallets_reads_other_location :
  currentStorages twoFacilitiesDb 2 = storage twoFacilitiesDb
  ∧ storedQuantities twoFacilitiesDb
      (collectPallets unit (λ _, None) tt 2000
         (StorageInput.mk 2 [StorageRowInput.mk 7 5]) twoFacilitiesDb).2
    = [25].
Proof. split; reflexivity. Qed.

#[local] Instance productIdAsc_trans : Transitive productIdAsc.
Proof. intros a b c. unfold productIdAsc. lia. Qed.

#[local] Instance productIdAsc_total : Total productIdAsc.
Proof. intros a b. unfold productIdAsc. lia. Qed.

(** X4: when the role check passes, the records of [availableStorages] come
    in ascending order of [productId], each one belongs to a processing
    facility, and a product without stock in any facility has no record,
    whatever the open orders ask of it. *)
Theorem availableStorages_sorted
    (MyContext : Type) (checkHasRole : MyContext → option string)
    (context : MyContext) (db : Database) :
  checkHasRole context = None →
  ∃ result,
    availableStorages MyContext checkHasRole context db = Returned result
    ∧ StronglySorted Z.le (Storage.productId <$> result)
    ∧ (∀ r, r ∈ result → atFacility db r)
    ∧ (∀ p, ¬ heldAtFacility db p → p ∉ Storage.productId <$> result).
Proof.
  intros Hrole. unfold availableStorages. rewrite Hrole. cbn [catch_rethrow].
  eexists. split; [reflexivity|]. split; [|split].
  - rewrite <- list_fmap_compose.
    apply (StronglySorted_fmap _ productIdAsc); [done|].
    apply StronglySorted_merge_sort; apply _.
  - intros r (s & -> & (_ & Hfacility & _)%currentFacilityStorages_spec)
             %list_elem_of_fmap.
    exact Hfacility.
  - intros p Hnot (r & -> & (s & -> & Hs)%list_elem_of_fmap)%list_elem_of_fmap.
    apply currentFacilityStorages_spec in Hs as (Hs & Hfacility & _).
    apply Hnot. by exists s.
Qed.

Lemma availableStorages_sorted_witness :
  ∃ result,
    availableStorages unit (λ _, None) tt twoFacilitiesDb = Returned result
    ∧ StronglySorted Z.le (Storage.productId <$> result).
Proof.
  destruct (availableStorages_sorted unit (λ _, None) tt twoFacilitiesDb eq_refl)
    as (result & Hresult & Hsorted & _).
  by exists result.
Defined.

(** ** Adding pallets, then collecting *)

Lemma addPallets_storage
    (MyContext : Type) (checkHasRole : MyContext → option string)
    (context : MyContext) (now : Z) (storageInput : StorageInput.t)
    (db : Database) :
  checkHasRole context = None →
  storage (addPallets MyContext checkHasRole context now storageInput db).2
  = storage db
    ++ imap (λ i row, Storage.mk (storageSeq db + Z.of_nat i)
                        (StorageInput.locationId storageInput)
                        (StorageRowInput.productId row)
                        (StorageRowInput.palletAmount row) now)
            (StorageInput.storageRows storageInput).
Proof.
  intros Hrole. unfold addPallets, Storage_bulkCreate. rewrite Hrole.
  cbn [snd storage]. f_equal. rewrite imap_fmap. reflexivity.
Qed.

(** X5: after [addPallets] at an instant later than every recorded
    snapshot, with each product once in the input, the new row of a product
    is the one latest snapshot of its key; [collectPallets] of [m] on that
    key then stores the amount just added plus [m]. *)
Theorem addPallets_then_collectPallets
    (MyContext : Type) (checkHasRole : MyContext → option string)
    (context : MyContext) (now now' locationId : Z)
    (rows : list StorageRowInput.t) (i : nat) (p n m : Z) (db : Database) :
  checkHasRole context = None →
  (∀ s, s ∈ storage db → Storage.createdAt s < now) →
  NoDup (StorageRowInput.productId <$> rows) →
  rows !! i = Some (StorageRowInput.mk p n) →
  let db1 := (addPallets MyContext checkHasRole context now
                (StorageInput.mk locationId rows) db).2 in
  let r := Storage.mk (storageSeq db + Z.of_nat i) locationId p n now in
  latestAt db1 locationId p r
  ∧ (∀ s, latestAt db1 locationId p s → s = r)
  ∧ storedQuantities db1
      (collectPallets MyContext checkHasRole context now'
         (StorageInput.mk locationId [StorageRowInput.mk p m]) db1).2
    = [n + m].
Proof.
  intros Hrole Hearlier Hnodup Hi db1 r.
  pose proof (addPallets_storage MyContext checkHasRole context now
                (StorageInput.mk locationId rows) db Hrole) as Hstorage.
  fold db1 in Hstorage. cbn [StorageInput.locationId StorageInput.storageRows]
    in Hstorage.
  assert (Hr : r ∈ storage db1).
  { rewrite Hstorage. apply elem_of_app. right.
    apply list_elem_of_lookup. exists i. rewrite list_lookup_imap, Hi.
    reflexivity. }
  assert (Hsplit : ∀ s, s ∈ storage db1 →
            Storage.createdAt s < now
            ∨ (Storage.createdAt s = now
               ∧ (Storage.productId s = p → s = r))).
  { intros s Hs. rewrite Hstorage in Hs.
    apply elem_of_app in Hs as [Hs|Hs]; [left; by apply Hearlier|right].
    apply list_elem_of_lookup_1 in Hs as [j Hj].
    rewrite list_lookup_imap in Hj.
    destruct (rows !! j) as [row|] eqn:Hrow; [|done]. injection Hj as <-.
    split; [done|]. cbn [Storage.productId]. intros Hp.
    assert (j = i) as ->.
    { eapply NoDup_alt; [exact Hnodup| |];
        rewrite list_lookup_fmap; [rewrite Hrow|rewrite Hi]; cbn;
        [by rewrite Hp|done]. }
    rewrite Hi in Hrow. by injection Hrow as <-. }
  assert (Hlatest : latestAt db1 locationId p r).
  { split; [done|]. do 2 (split; [done|]). intros s' Hs' _ _.
    destruct (Hsplit s' Hs') as [?|[-> _]]; cbn; lia. }
  assert (Hunique : ∀ s, Storage.productId s = p → s ∈ storage db1 →
                         now ≤ Storage.createdAt s → s = r).
  { intros s Hp Hs Hnow. destruct (Hsplit s Hs) as [?|[_ Heq]]; [lia|auto]. }
  split; [exact Hlatest|]. split.
  - intros s (Hs & Hl & Hp & Hle). apply Hunique; [done..|].
    by apply (Hle r).
  - assert (Hsame : sameQuantityAtInstant db1 r).
    { intros s' Hs' Hp' Ht'. rewrite (Hunique s' Hp' Hs'); [done|].
      rewrite Ht'. done. }
    destruct (currentStorages_find_latest db1 locationId p r Hlatest Hsame)
      as (s1 & Hfind & Hamount).
    unfold collectPallets, storedQuantities, Storage_bulkCreate.
    rewrite Hrole.
    cbn [snd storage StorageInput.locationId StorageInput.storageRows
         fmap list_fmap StorageRowInput.productId StorageRowInput.palletAmount].
    rewrite Hfind, drop_app_length.
    cbn [imap fmap list_fmap Storage.palletAmount NewStorage.palletAmount].
    f_equal. rewrite Hamount. unfold r. cbn [Storage.palletAmount].
    case_decide; lia.
Qed.

Lemma addPallets_then_collectPallets_witness :
  storedQuantities
    (addPallets unit (λ _, None) tt 2000 fivePallets ledgerDb).2
    (collectPallets unit (λ _, None) tt 3000
       (StorageInput.mk 1 [StorageRowInput.mk 7 4])
       (addPallets unit (λ _, None) tt 2000 fivePallets ledgerDb).2).2
  = [5 + 4].
Proof.
  apply (addPallets_then_collectPallets unit (λ _, None) tt 2000 3000 1
           [StorageRowInput.mk 7 5] 0 7 5 4 ledgerDb).
  - reflexivity.
  - intros s ->%list_elem_of_singleton. reflexivity.
  - vm_compute. apply NoDup_singleton.
  - reflexivity.
Defined.

(** ** More on [addStorageToLocation] *)

(** X6: with the ownership check passed, [addStorageToLocation] for a
    location or a product that does not exist raises and leaves the
    database as it was; whenever it changes the storage table, the location
    and the product exist, exactly one row was appended, numbered by the
    sequence, which moved on by one, and that row is returned. *)
Theorem addStorageToLocation_one_row
    (MyContext : Type) (checkAdminOrOwner : MyContext → Z → option string)
    (context : MyContext) (now locationId productId palletAmount : Z)
    (db : Database) :
  checkAdminOrOwner context locationId = None →
  let result := addStorageToLocation MyContext checkAdminOrOwner context
                  now locationId productId palletAmount db in
  let newStorage := Storage.mk (storageSeq db) locationId productId
                      palletAmount now in
  (Location_findByPk db locationId = None
   ∨ Product_findByPk db productId = None →
   result = (Raised "Error adding Storage to Location", db))
  ∧ (storage result.2 ≠ storage db →
     is_Some (Location_findByPk db locationId)
     ∧ is_Some (Product_findByPk db productId)
     ∧ result.1 = Returned newStorage
     ∧ storage result.2 = storage db ++ [newStorage]
     ∧ storageSeq result.2 = storageSeq db + 1).
Proof.
  intros Hcheck result newStorage. subst result.
  unfold addStorageToLocation, addStorageToLocation_try. rewrite Hcheck.
  split.
  - intros [Hnone|Hnone]; rewrite Hnone; [done|].
    by destruct (Location_findByPk db locationId).
  - intros Hchanged.
    destruct (Location_findByPk db locationId) as [l|];
      [|by destruct Hchanged].
    destruct (Product_findByPk db productId) as [p|];
      [|by destruct Hchanged].
    destruct (Array_find _ (storage db)) as [s|]; [by destruct Hchanged|].
    repeat split; by eexists.
Qed.

Lemma addStorageToLocation_one_row_witness :
  addStorageToLocation unit (λ _ _, None) tt 2000 1 8 3 ledgerDb
  = (Raised "Error adding Storage to Location", ledgerDb).
Proof.
  apply (addStorageToLocation_one_row unit (λ _ _, None) tt 2000 1 8 3 ledgerDb);
    [reflexivity|].
  right. reflexivity.
Defined.

Lemma addStorageToLocation_taken
    (MyContext : Type) (checkAdminOrOwner : MyContext → Z → option string)
    (context : MyContext) (now locationId productId palletAmount : Z)
    (db : Database) :
  checkAdminOrOwner context locationId = None →
  hasSnapshot db locationId productId →
  addStorageToLocation MyContext checkAdminOrOwner context
    now locationId productId palletAmount db
  = (Raised "Error adding Storage to Location", db).
Proof.
  intros Hcheck [s Hfind]%findOne_storage_Some.
  unfold addStorageToLocation, addStorageToLocation_try. rewrite Hcheck.
  destruct (Location_findByPk db locationId), (Product_findByPk db productId);
    rewrite ?Hfind; reflexivity.
Qed.

(** X7: once [addStorageToLocation] has returned a row for a pair
    (locationId, productId), every later call for that pair that passes the
    ownership check raises and leaves the database as it is, whatever
    amount it brings. *)
Theorem addStorageToLocation_once
    (MyContext : Type) (checkAdminOrOwner : MyContext → Z → option string)
    (context context' : MyContext)
    (now now' locationId productId palletAmount palletAmount' : Z)
    (db : Database) (created : Storage.t) :
  (addStorageToLocation MyContext checkAdminOrOwner context
     now locationId productId palletAmount db).1 = Returned created →
  checkAdminOrOwner context' locationId = None →
  let db' := (addStorageToLocation MyContext checkAdminOrOwner context
                now locationId productId palletAmount db).2 in
  addStorageToLocation MyContext checkAdminOrOwner context'
    now' locationId productId palletAmount' db'
  = (Raised "Error adding Storage to Location", db').
Proof.
  intros Hfirst Hcheck' db'. apply addStorageToLocation_taken; [done|].
  subst db'. revert Hfirst.
  unfold addStorageToLocation, addStorageToLocation_try.
  destruct (checkAdminOrOwner context locationId); [done|].
  destruct (Location_findByPk db locationId) as [l|]; [|done].
  destruct (Product_findByPk db productId) as [p|]; [|done].
  destruct (Array_find _ (storage db)) as [s|]; [done|].
  intros _. eexists. split.
  - cbn [snd Storage_create storage]. apply elem_of_app. right. left.
  - done.
Qed.

Lemma addStorageToLocation_once_witness :
  addStorageToLocation unit (λ _ _, None) tt 3000 1 7 5
    (addStorageToLocation unit (λ _ _, None) tt 2000 1 7 3
       (mkDatabase (location ledgerDb) (product ledgerDb) [] [] [] [] 1)).2
  = (Raised "Error adding Storage to Location",
     (addStorageToLocation unit (λ _ _, None) tt 2000 1 7 3
        (mkDatabase (location ledgerDb) (product ledgerDb) [] [] [] [] 1)).2).
Proof.
  apply (addStorageToLocation_once unit (λ _ _, None) tt tt 2000 3000 1 7 3 5
           (mkDatabase (location ledgerDb) (product ledgerDb) [] [] [] [] 1)
           (Storage.mk 1 1 7 3 2000));
    reflexivity.
Defined.

(** ** Orders *)

Lemma findByPk_fmap {A} (key : A → Z) (f : A → A) (l : list A) (k : Z) :
  (∀ x, key (f x) = key x) →
  snd <$> list_find (λ x, key x = k) (f <$> l)
  = f <$> (snd <$> list_find (λ x, key x = k) l).
Proof.
  intros Hkey. rewrite list_find_fmap.
  rewrite (list_find_ext _ (λ x, key x = k)) by (intros x; cbn; by rewrite Hkey).
  by destruct (list_find _ l) as [[i x]|].
Qed.

Lemma snd_list_find_cons {A} (P : A → Prop) `{∀ x, Decision (P x)}
    (a : A) (l : list A) :
  snd <$> list_find P (a :: l)
  = if decide (P a) then Some a else snd <$> list_find P l.
Proof.
  cbn. case_decide; [done|]. by destruct (list_find P l) as [[i y]|].
Qed.

Lemma findByPk_snoc {A} (key : A → Z) (l : list A) (x : A) (k : Z) :
  snd <$> list_find (λ y, key y = k) (l ++ [x])
  = match snd <$> list_find (λ y, key y = k) l with
    | Some y => Some y
    | None => if decide (key x = k) then Some x else None
    end.
Proof.
  induction l as [|a l IH].
  - rewrite app_nil_l, snd_list_find_cons.
    destruct (decide (key x = k)); reflexivity.
  - rewrite <- app_comm_cons, !snd_list_find_cons.
    destruct (decide (key a = k)); [reflexivity|exact IH].
Qed.

Lemma findByPk_key {A} (key : A → Z) (l : list A) (x : A) (k : Z) :
  snd <$> list_find (λ y, key y = k) l = Some x → x ∈ l ∧ key x = k.
Proof.
  intros ([i y] & Hfind & ->)%fmap_Some.
  apply list_find_Some in Hfind as (Hi & Hk & _).
  split; [by eapply list_elem_of_lookup_2|done].
Qed.

Lemma Order_findByPk_save (o : Order.t) (db : Database) (k : Z) :
  Order_findByPk (Order_save o db) k
  = (λ row, if decide (Order.orderId row = Order.orderId o) then o else row)
      <$> Order_findByPk db k.
Proof.
  unfold Order_findByPk, Order_save. cbn [order].
  apply (findByPk_fmap Order.orderId). intros x. by case_decide.
Qed.

Lemma Order_findWithRows_Some (db : Database) (orderId : Z) (o : Order.t) :
  Order_findByPk db orderId = Some o → hasOrderRow db orderId →
  Order_findWithRows db orderId
  = Some (OrderResult.mk o (Location_findByPk db (Order.locationId o))
            (filter (λ row, OrderRow.orderId row = orderId) (orderRow db)))
  ∧ filter (λ row, OrderRow.orderId row = orderId) (orderRow db) ≠ [].
Proof.
  intros Ho (row & Hrow & Hid). unfold Order_findWithRows. rewrite Ho.
  assert (Hin : row ∈ filter (λ row, OrderRow.orderId row = orderId)
                             (orderRow db))
    by (apply list_elem_of_filter; done).
  destruct (filter _ (orderRow db)) as [|r rs]; [|done].
  by apply not_elem_of_nil in Hin.
Qed.

Lemma Order_findWithRows_None (db : Database) (orderId : Z) :
  Order_findByPk db orderId = None ∨ ¬ hasOrderRow db orderId →
  Order_findWithRows db orderId = None.
Proof.
  unfold Order_findWithRows. intros [->|Hnone]; [done|].
  destruct (Order_findByPk db orderId); [|done].
  destruct (filter _ (orderRow db)) as [|r rs] eqn:Hrows; [done|].
  exfalso. apply Hnone. exists r.
  assert (Hin : r ∈ filter (λ row, OrderRow.orderId row = orderId)
                           (orderRow db)) by (rewrite Hrows; left).
  apply list_elem_of_filter in Hin as [? ?]. done.
Qed.

(** X8: with the role check passed, [collectOrder] and [cancelOrder] find
    no order when the id is unknown and also when the order has no order
    row: the mutation then raises 'Error collecting order <id>'
    ('Error cancelling order <id>') and leaves the database as it was. *)
Theorem collectOrder_without_rows
    (MyContext : Type) (checkHasRole : MyContext → option string)
    (context : MyContext) (orderId : Z) (db : Database) :
  checkHasRole context = None →
  Order_findByPk db orderId = None ∨ ¬ hasOrderRow db orderId →
  OrderResolvers.collectOrder MyContext checkHasRole context orderId db
  = (Raised ("Error collecting order " +:+ pretty orderId), db)
  ∧ OrderResolvers.cancelOrder MyContext checkHasRole context orderId db
    = (Raised ("Error cancelling order " +:+ pretty orderId), db).
Proof.
  intros Hrole Hnone%Order_findWithRows_None.
  unfold OrderResolvers.collectOrder, OrderResolvers.cancelOrder.
  rewrite Hrole, Hnone. done.
Qed.

Lemma collectOrder_without_rows_witness :
  OrderResolvers.collectOrder unit (λ _, None) tt 3 emptyOrderDb
  = (Raised "Error collecting order 3", emptyOrderDb)
  ∧ OrderResolvers.cancelOrder unit (λ _, None) tt 3 emptyOrderDb
    = (Raised "Error cancelling order 3", emptyOrderDb).
Proof.
  apply (collectOrder_without_rows unit (λ _, None) tt 3 emptyOrderDb);
    [reflexivity|].
  right. intros (row & Hrow & Hid). revert Hid.
  vm_compute in Hrow. repeat (apply elem_of_cons in Hrow as [->|Hrow]);
    [discriminate..|by apply elem_of_nil in Hrow].
Defined.

Lemma sumZ_app (l k : list Z) : sumZ (l ++ k) = sumZ l + sumZ k.
Proof.
  unfold sumZ. induction l as [|x l IH]; cbn [app foldr]; [lia|].
  rewrite IH. lia.
Qed.

Lemma sumZ_filter_split {A} (g : A → Z) (P Q : A → Prop)
    `{∀ x, Decision (P x)} `{∀ x, Decision (Q x)} (l : list A) :
  sumZ (g <$> filter P l)
  = sumZ (g <$> filter (λ x, P x ∧ ¬ Q x) l)
    + sumZ (g <$> filter (λ x, P x ∧ Q x) l).
Proof.
  induction l as [|a l IH]; [done|]. rewrite !filter_cons.
  destruct (decide (P a)) as [HP|HP], (decide (Q a)) as [HQ|HQ];
    repeat (case_decide; try tauto);
    rewrite ?fmap_cons; unfold sumZ in *; cbn [foldr]; lia.
Qed.

Lemma filter_none {A} (P : A → Prop) `{∀ x, Decision (P x)} (l : list A) :
  (∀ x, x ∈ l → ¬ P x) → filter P l = [].
Proof.
  intros Hnone. induction l as [|a l IH]; [done|].
  rewrite filter_cons_False by (apply Hnone; left).
  apply IH. intros x Hx. apply Hnone. by right.
Qed.

Lemma orderIsOpen_save (db : Database) (o : Order.t) (status : string)
    (row : OrderRow.t) :
  Order_findByPk db (Order.orderId o) = Some o → status ≠ Avattu →
  orderIsOpen (Order_save (Order_with_status o status) db) row
  ↔ orderIsOpen db row ∧ OrderRow.orderId row ≠ Order.orderId o.
Proof.
  intros Ho Hstatus. unfold orderIsOpen. rewrite Order_findByPk_save.
  cbn [Order_with_status Order.orderId].
  destruct (decide (OrderRow.orderId row = Order.orderId o)) as [Heq|Hne].
  - rewrite Heq, Ho. cbn. rewrite decide_True by done. cbn. split.
    + intros [=]. done.
    + intros [_ Hid]. done.
  - destruct (Order_findByPk db (OrderRow.orderId row)) as [x|] eqn:Hx; cbn.
    + apply (findByPk_key Order.orderId) in Hx as [_ Hkey].
      rewrite decide_False by congruence. tauto.
    + split; [done|]. by intros [? _].
Qed.

Lemma reservedQuantity_save (db : Database) (o : Order.t) (status : string)
    (p : Z) :
  Order_findByPk db (Order.orderId o) = Some o → status ≠ Avattu →
  reservedQuantity (Order_save (Order_with_status o status) db) p
  = reservedQuantity db p
    - (if decide (Order.status o = Avattu)
       then orderQuantity db (Order.orderId o) p else 0).
Proof.
  intros Ho Hstatus. unfold reservedQuantity at 1 2. cbn [Order_save orderRow].
  rewrite (sumZ_filter_split OrderRow.palletAmount
             (λ row, orderIsOpen db row ∧ OrderRow.productId row = p)
             (λ row, OrderRow.orderId row = Order.orderId o)).
  rewrite (list_filter_iff
             (λ row, orderIsOpen (Order_save (Order_with_status o status) db) row
                     ∧ OrderRow.productId row = p)
             (λ row, (orderIsOpen db row ∧ OrderRow.productId row = p)
                     ∧ ¬ OrderRow.orderId row = Order.orderId o))
    by (intros row; rewrite (orderIsOpen_save db o status row Ho Hstatus); tauto).
  assert (Hopen : ∀ row, OrderRow.orderId row = Order.orderId o →
                         orderIsOpen db row ↔ Order.status o = Avattu).
  { intros row Hid. unfold orderIsOpen. rewrite Hid, Ho. cbn. split; congruence. }
  case_decide as Hwas.
  - unfold orderQuantity.
    rewrite (list_filter_iff
               (λ row, (orderIsOpen db row ∧ OrderRow.productId row = p)
                       ∧ OrderRow.orderId row = Order.orderId o)
               (λ row, OrderRow.orderId row = Order.orderId o
                       ∧ OrderRow.productId row = p)).
    + lia.
    + intros row. split; [tauto|]. intros [Hid Hp].
      split; [|done]. split; [|done]. by apply Hopen.
  - rewrite (filter_none (λ row, (orderIsOpen db row ∧ OrderRow.productId row = p)
                                 ∧ OrderRow.orderId row = Order.orderId o)).
    + unfold sumZ at 3. cbn. lia.
    + intros row _ [[Hrow _] Hid]. by apply Hwas, (Hopen row).
Qed.

Lemma closedAs_statusWritten (status : string) (db : Database) (orderId : Z)
    (o : Order.t) (message : string) :
  status ≠ Avattu →
  Order_findByPk db orderId = Some o → hasOrderRow db orderId →
  closedAs status db orderId o
    (catch_rethrow
       (Returned (OrderResult.mk (Order_with_status o status)
                    (Location_findByPk db (Order.locationId o))
                    (filter (λ row, OrderRow.orderId row = orderId) (orderRow db))))
       (λ _, message),
     Order_save (Order_with_status o status) db).
Proof.
  intros Hstatus Ho Hrows.
  destruct (findByPk_key Order.orderId _ _ _ Ho) as [_ Hid]. subst orderId.
  unfold closedAs. cbn [fst snd catch_rethrow]. split; [done|]. split.
  - rewrite Order_findByPk_save, Ho. cbn. by rewrite decide_True.
  - do 2 (split; [done|]). intros p. by apply reservedQuantity_save.
Qed.

(** X9: with the role check passed, collecting or cancelling an order that
    has order rows returns it with the status 'Noudettu' ('Peruttu') and
    its rows, whatever its status was; it moves no pallet in the storage
    table, changes no order row, and takes the pallets of the order out of
    the reservations when the order was open, so the available stock of the
    facilities grows by them. *)
Theorem closing_order_releases_reservation
    (MyContext : Type) (checkHasRole : MyContext → option string)
    (context : MyContext) (orderId : Z) (o : Order.t) (db : Database) :
  checkHasRole context = None →
  Order_findByPk db orderId = Some o → hasOrderRow db orderId →
  closedAs "Noudettu" db orderId o
    (OrderResolvers.collectOrder MyContext checkHasRole context orderId db)
  ∧ closedAs "Peruttu" db orderId o
      (OrderResolvers.cancelOrder MyContext checkHasRole context orderId db).
Proof.
  intros Hrole Ho Hrows.
  destruct (Order_findWithRows_Some db orderId o Ho Hrows) as [Hfound _].
  unfold OrderResolvers.collectOrder, OrderResolvers.cancelOrder.
  rewrite Hrole, Hfound. cbn [OrderResult.order OrderResult.location
                              OrderResult.orderRows].
  split; by apply closedAs_statusWritten.
Qed.

Lemma closing_order_releases_reservation_witness :
  reservedQuantity
    (OrderResolvers.collectOrder unit (λ _, None) tt 1 (facilityDb 8)).2 7
  = reservedQuantity (facilityDb 8) 7 - orderQuantity (facilityDb 8) 1 7.
Proof.
  destruct (closing_order_releases_reservation unit (λ _, None) tt 1
              (Order.mk 1 1 Avattu) (facilityDb 8))
    as [(_ & _ & _ & _ & Hreserved) _]; [reflexivity|reflexivity| |].
  - exists (OrderRow.mk 1 7 8). split; [left|reflexivity].
  - exact (Hreserved 7).
Defined.

Example collectOrder_frees_stock :
  availableStorages unit (λ _, None) tt (facilityDb 8)
  = Returned [Storage.mk 1 1 7 12 1000]
  ∧ availableStorages unit (λ _, None) tt
      (OrderResolvers.collectOrder unit (λ _, None) tt 1 (facilityDb 8)).2
    = Returned [Storage.mk 1 1 7 20 1000].
Proof. split; reflexivity. Qed.

Lemma collectOrder_statusWritten
    (MyContext : Type) (checkHasRole : MyContext → option string)
    (context : MyContext) (orderId : Z) (db : Database) :
  (OrderResolvers.collectOrder MyContext checkHasRole context orderId db).2
  = match checkHasRole context with
    | Some _ => db
    | None => statusWritten "Noudettu" orderId db
    end.
Proof.
  unfold OrderResolvers.collectOrder, statusWritten.
  destruct (checkHasRole context); [done|].
  by destruct (Order_findWithRows db orderId).
Qed.

Lemma cancelOrder_statusWritten
    (MyContext : Type) (checkHasRole : MyContext → option string)
    (context : MyContext) (orderId : Z) (db : Database) :
  (OrderResolvers.cancelOrder MyContext checkHasRole context orderId db).2
  = match checkHasRole context with
    | Some _ => db
    | None => statusWritten "Peruttu" orderId db
    end.
Proof.
  unfold OrderResolvers.cancelOrder, statusWritten.
  destruct (checkHasRole context); [done|].
  by destruct (Order_findWithRows db orderId).
Qed.

Lemma statusWritten_twice (status1 status2 : string) (orderId : Z)
    (db : Database) :
  statusWritten status2 orderId (statusWritten status1 orderId db)
  = statusWritten status2 orderId db.
Proof.
  destruct (Order_findWithRows db orderId) as [found|] eqn:Hfound.
  - unfold Order_findWithRows in Hfound.
    destruct (Order_findByPk db orderId) as [o|] eqn:Ho; [|done].
    destruct (findByPk_key Order.orderId _ _ _ Ho) as [_ Hid].
    destruct (filter (λ row, OrderRow.orderId row = orderId) (orderRow db))
      as [|r rs] eqn:Hrows; [done|].
    injection Hfound as <-.
    assert (Hwritten : ∀ status,
              statusWritten status orderId db
              = Order_save (Order_with_status o status) db).
    { intros status. unfold statusWritten, Order_findWithRows.
      by rewrite Ho, Hrows. }
    rewrite !Hwritten.
    unfold statusWritten, Order_findWithRows.
    rewrite Order_findByPk_save, Ho. cbn [Order_save orderRow].
    rewrite Hrows. cbn [fmap option_fmap option_map Order_with_status
                         Order.orderId OrderResult.order].
    rewrite decide_True by done.
    unfold Order_save, Order_with_status.
    cbn [location product storage locationPrice order orderRow storageSeq
         Order.orderId Order.locationId].
    f_equal. rewrite <- list_fmap_compose. apply list_fmap_ext.
    intros _ row _. cbn [compose].
    destruct (decide (Order.orderId row = Order.orderId o)) as [Hrow|Hrow].
    + cbn [Order.orderId]. by rewrite decide_True.
    + by rewrite decide_False.
  - unfold statusWritten. by rewrite !Hfound.
Qed.

(** X10: the status of an order is the one written last: cancelling after
    collecting leaves the database that cancelling alone leaves, collecting
    after cancelling the one that collecting alone leaves, and collecting
    or cancelling twice is the same as once; no status protects an order
    from the next mutation. *)
Theorem order_status_last_write
    (MyContext : Type) (checkHasRole : MyContext → option string)
    (context context' : MyContext) (orderId : Z) (db : Database) :
  checkHasRole context' = None →
  let collect c db :=
    (OrderResolvers.collectOrder MyContext checkHasRole c orderId db).2 in
  let cancel c db :=
    (OrderResolvers.cancelOrder MyContext checkHasRole c orderId db).2 in
  cancel context' (collect context db) = cancel context' db
  ∧ collect context' (cancel context db) = collect context' db
  ∧ collect context' (collect context db) = collect context' db
  ∧ cancel context' (cancel context db) = cancel context' db.
Proof.
  intros Hrole collect cancel. subst collect cancel. cbv beta.
  rewrite !collectOrder_statusWritten, !cancelOrder_statusWritten, Hrole.
  destruct (checkHasRole context); [done|].
  by rewrite !statusWritten_twice.
Qed.

Lemma order_status_last_write_witness :
  (OrderResolvers.cancelOrder unit (λ _, None) tt 1
     (OrderResolvers.collectOrder unit (λ _, None) tt 1 (facilityDb 8)).2).2
  = (OrderResolvers.cancelOrder unit (λ _, None) tt 1 (facilityDb 8)).2.
Proof.
  exact (proj1 (order_status_last_write unit (λ _, None) tt tt 1 (facilityDb 8)
                  eq_refl)).
Defined.

(** X11: the [order] query, with the role check passed, returns an order
    exactly when it exists and has at least one order row, together with
    all its rows; otherwise it raises
    'Error retrieving order with ID <id>'. *)
Theorem order_found_with_rows
    (MyContext : Type) (checkHasRole : MyContext → option string)
    (context : MyContext) (orderId : Z) (db : Database) :
  checkHasRole context = None →
  (Order_findByPk db orderId = None ∨ ¬ hasOrderRow db orderId →
   OrderResolvers.order MyContext checkHasRole context orderId db
   = Raised ("Error retrieving order with ID " +:+ pretty orderId))
  ∧ (∀ o, Order_findByPk db orderId = Some o → hasOrderRow db orderId →
          OrderResolvers.order MyContext checkHasRole context orderId db
          = Returned
              (OrderResult.mk o (Location_findByPk db (Order.locationId o))
                 (filter (λ row, OrderRow.orderId row = orderId) (orderRow db)))
          ∧ Order.orderId o = orderId)
  ∧ (∀ found,
       OrderResolvers.order MyContext checkHasRole context orderId db
       = Returned found →
       OrderResult.orderRows found ≠ []
       ∧ ∀ row, row ∈ OrderResult.orderRows found
                ↔ row ∈ orderRow db ∧ OrderRow.orderId row = orderId).
Proof.
  intros Hrole. unfold OrderResolvers.order. rewrite Hrole. split; [|split].
  - intros Hnone%Order_findWithRows_None. by rewrite Hnone.
  - intros o Ho Hrows.
    destruct (Order_findWithRows_Some db orderId o Ho Hrows) as [-> _].
    split; [done|]. by destruct (findByPk_key Order.orderId _ _ _ Ho).
  - intros found. unfold Order_findWithRows.
    destruct (Order_findByPk db orderId) as [o|]; [|done].
    destruct (filter _ (orderRow db)) as [|r rs] eqn:Hrows; [done|].
    cbn [catch_rethrow]. intros [= <-]. cbn [OrderResult.orderRows].
    split; [done|]. intros row. rewrite <- Hrows, list_elem_of_filter. tauto.
Qed.

Lemma order_found_with_rows_witness :
  OrderResolvers.order unit (λ _, None) tt 3 emptyOrderDb
  = Raised "Error retrieving order with ID 3".
Proof.
  apply (order_found_with_rows unit (λ _, None) tt 3 emptyOrderDb);
    [reflexivity|].
  right. intros (row & Hrow & Hid). revert Hid.
  vm_compute in Hrow. repeat (apply elem_of_cons in Hrow as [->|Hrow]);
    [discriminate..|by apply elem_of_nil in Hrow].
Defined.

Lemma Order_findByPk_create (newOrderId locationId : Z) (status : string)
    (db : Database) (k : Z) :
  newOrderId ∉ Order.orderId <$> order db →
  Order_findByPk (Order_create newOrderId locationId status db).2 k
  = if decide (k = newOrderId)
    then Some (Order.mk newOrderId locationId status)
    else Order_findByPk db k.
Proof.
  intros Hfresh. unfold Order_findByPk, Order_create. cbn [snd order].
  rewrite (findByPk_snoc Order.orderId). cbn [Order.orderId].
  destruct (snd <$> list_find (λ y, Order.orderId y = k) (order db))
    as [y|] eqn:Hy.
  - apply (findByPk_key Order.orderId) in Hy as [Hin Hk].
    rewrite decide_False; [done|]. intros ->. apply Hfresh.
    apply list_elem_of_fmap. by exists y.
  - destruct (decide (newOrderId = k)) as [->|Hne].
    + by rewrite decide_True.
    + by rewrite decide_False by congruence.
Qed.

Lemma orderRowsOf_quantity (orderId : Z) (rows : list OrderRowInput.t)
    (Q : Prop) `{Decision Q} (p : Z) :
  sumZ (OrderRow.palletAmount
          <$> filter (λ row, Q ∧ OrderRow.productId row = p)
                     (orderRowsOf orderId rows))
  = if decide Q then inputQuantity rows p else 0.
Proof.
  unfold orderRowsOf, inputQuantity, sumZ.
  induction rows as [|row rows IH].
  - by case_decide.
  - rewrite fmap_cons, !filter_cons. cbn [OrderRow.productId].
    destruct (decide Q) as [HQ|HQ],
      (decide (OrderRowInput.productId row = p)) as [Hp|Hp].
    + rewrite decide_True by done. rewrite !fmap_cons. cbn [foldr].
      rewrite IH. done.
    + rewrite decide_False by tauto. exact IH.
    + rewrite decide_False by tauto. exact IH.
    + rewrite decide_False by tauto. exact IH.
Qed.

Lemma orderRowsOf_keys (orderId : Z) (rows : list OrderRowInput.t) :
  NoDup (OrderRow_key <$> orderRowsOf orderId rows)
  ↔ NoDup (OrderRowInput.productId <$> rows).
Proof.
  unfold orderRowsOf. rewrite <- list_fmap_compose.
  rewrite <- (NoDup_fmap (pair orderId) (OrderRowInput.productId <$> rows)).
  by rewrite <- list_fmap_compose.
Qed.

(** X12: with the ownership check passed, an id the sequence has not given
    before and each product once in the input, [addOrder] returns the
    order with its rows, touches no storage row and checks no stock: when
    its status is 'Avattu' the reservation of every product grows by the
    amount the input asks, however much the facilities hold, and with any
    other status the reservations stay as they were. *)
Theorem addOrder_reserves
    (MyContext : Type) (checkAdminOrOwner : MyContext → Z → option string)
    (context : MyContext) (newOrderId now : Z) (input : AddOrderInput.t)
    (db : Database) :
  checkAdminOrOwner context (AddOrderInput.locationId input) = None →
  newOrderId ∉ Order.orderId <$> order db →
  ¬ hasOrderRow db newOrderId →
  NoDup (OrderRowInput.productId <$> AddOrderInput.orderRows input) →
  let result := OrderResolvers.addOrder MyContext checkAdminOrOwner context
                  newOrderId now input db in
  let rows := orderRowsOf newOrderId (AddOrderInput.orderRows input) in
  result.1 = Returned (AddOrderResult.mk newOrderId
                         (AddOrderInput.locationId input) now
                         (AddOrderInput.status input) rows)
  ∧ storage result.2 = storage db
  ∧ order result.2
    = order db ++ [Order.mk newOrderId (AddOrderInput.locationId input)
                            (AddOrderInput.status input)]
  ∧ orderRow result.2 = orderRow db ++ rows
  ∧ ∀ p, reservedQuantity result.2 p
         = reservedQuantity db p
           + (if decide (AddOrderInput.status input = Avattu)
              then inputQuantity (AddOrderInput.orderRows input) p else 0).
Proof.
  intros Hcheck Hfresh Horphan Hnodup result rows. subst result.
  unfold OrderResolvers.addOrder. rewrite Hcheck.
  cbn [Order_create Order.orderId Order.status]. fold rows.
  assert (Hkeys : NoDup (OrderRow_key <$> rows)
            ∧ Forall (λ row, OrderRow_key row
                             ∉ OrderRow_key <$> orderRow db) rows).
  { split.
    - by apply orderRowsOf_keys.
    - apply Forall_forall.
      intros row (ri & -> & _)%list_elem_of_fmap
                 (old & Hkey & Hold)%list_elem_of_fmap.
      apply Horphan. exists old. split; [done|].
      unfold OrderRow_key in Hkey. cbn in Hkey. congruence. }
  unfold OrderRow_bulkCreate. cbn [orderRow].
  rewrite decide_True by exact Hkeys.
  cbn [fst snd catch_rethrow storage order orderRow].
  do 4 (split; [done|]). intros p. unfold reservedQuantity. cbn [orderRow].
  rewrite filter_app, fmap_app, sumZ_app. f_equal.
  - do 2 f_equal. apply filter_ext_elem_of. intros row Hrow.
    unfold orderIsOpen.
    pose proof (Order_findByPk_create newOrderId
                  (AddOrderInput.locationId input) (AddOrderInput.status input)
                  db (OrderRow.orderId row) Hfresh) as Hfind.
    unfold Order_findByPk, Order_create in *. cbn [snd order] in *.
    rewrite Hfind, decide_False; [done|].
    intros Hid. apply Horphan. by exists row.
  - rewrite <- (orderRowsOf_quantity newOrderId).
    do 2 f_equal. apply filter_ext_elem_of.
    intros row (ri & -> & _)%list_elem_of_fmap. unfold orderIsOpen.
    pose proof (Order_findByPk_create newOrderId
                  (AddOrderInput.locationId input) (AddOrderInput.status input)
                  db newOrderId Hfresh) as Hfind.
    unfold Order_findByPk, Order_create in *. cbn [snd order] in *.
    cbn [OrderRow.orderId OrderRow.productId].
    rewrite Hfind, decide_True by done. cbn. split.
    + intros [[= ?] ?]. done.
    + intros [-> ?]. done.
Qed.

Lemma addOrder_reserves_witness :
  reservedQuantity
    (OrderResolvers.addOrder unit (λ _ _, None) tt 3 5000 bigOrder
       (facilityDb 8)).2 7
  = reservedQuantity (facilityDb 8) 7 + 25.
Proof.
  assert (Hnone : ¬ hasOrderRow (facilityDb 8) 3).
  { intros (row & Hrow & Hid). revert Hid. vm_compute in Hrow.
    repeat (apply elem_of_cons in Hrow as [->|Hrow]);
      [discriminate..|by apply elem_of_nil in Hrow]. }
  destruct (addOrder_reserves unit (λ _ _, None) tt 3 5000 bigOrder
              (facilityDb 8)) as (_ & _ & _ & _ & Hreserved);
    [reflexivity| |exact Hnone| |].
  - vm_compute. intros Hin.
    repeat (apply elem_of_cons in Hin as [Hin|Hin]; [discriminate Hin|]).
    by apply elem_of_nil in Hin.
  - vm_compute. apply NoDup_singleton.
  - exact (Hreserved 7).
Defined.

(** An order for more than the facilities hold is accepted: the available
    stock of product 7 goes from 12 to -13. *)
Example addOrder_overcommits :
  availableStorages unit (λ _, None) tt
    (OrderResolvers.addOrder unit (λ _ _, None) tt 3 5000 bigOrder
       (facilityDb 8)).2
  = Returned [Storage.mk 1 1 7 (-13) 1000].
Proof. reflexivity. Qed.

(** X13: [addOrder] raises the one error 'Error adding new order' for a
    failed ownership check and for a refused insertion alike, but not with
    the same effect: after a failed check the database is as it was, while
    an input that names a product twice, whose rows the primary key of the
    order rows refuses, leaves the new order in the order table without
    any row. *)
Theorem addOrder_partial_failure
    (MyContext : Type) (checkAdminOrOwner : MyContext → Z → option string)
    (context : MyContext) (newOrderId now : Z) (input : AddOrderInput.t)
    (db : Database) :
  let result := OrderResolvers.addOrder MyContext checkAdminOrOwner context
                  newOrderId now input db in
  (is_Some (checkAdminOrOwner context (AddOrderInput.locationId input)) →
   result = (Raised "Error adding new order", db))
  ∧ (checkAdminOrOwner context (AddOrderInput.locationId input) = None →
     ¬ NoDup (OrderRowInput.productId <$> AddOrderInput.orderRows input) →
     result.1 = Raised "Error adding new order"
     ∧ order result.2
       = order db ++ [Order.mk newOrderId (AddOrderInput.locationId input)
                               (AddOrderInput.status input)]
     ∧ orderRow result.2 = orderRow db
     ∧ storage result.2 = storage db).
Proof.
  cbv zeta. unfold OrderResolvers.addOrder. split.
  - intros [m ->]. done.
  - intros -> Hdup. cbn [Order_create Order.orderId Order.status].
    unfold OrderRow_bulkCreate. rewrite decide_False; [done|].
    intros [Hnodup _]. apply Hdup.
    by apply (orderRowsOf_keys newOrderId).
Qed.

Lemma addOrder_partial_failure_witness :
  (OrderResolvers.addOrder unit (λ _ _, None) tt 3 5000 repeatedProductOrder
     (facilityDb 8)).1 = Raised "Error adding new order"
  ∧ order (OrderResolvers.addOrder unit (λ _ _, None) tt 3 5000
             repeatedProductOrder (facilityDb 8)).2
    = order (facilityDb 8) ++ [Order.mk 3 1 Avattu]
  ∧ orderRow (OrderResolvers.addOrder unit (λ _ _, None) tt 3 5000
                repeatedProductOrder (facilityDb 8)).2
    = orderRow (facilityDb 8).
Proof.
  destruct (addOrder_partial_failure unit (λ _ _, None) tt 3 5000
              repeatedProductOrder (facilityDb 8)) as [_ Hrows].
  destruct Hrows as (Hraised & Horder & Hrow & _); [reflexivity| |done].
  vm_compute. intros Hnodup. apply NoDup_cons in Hnodup as [Hnotin _].
  apply Hnotin. left.
Defined.

(** ** Prices *)

Lemma priceQuery_spec table locationIds startDate endDate v :
  v ∈ priceQuery table locationIds startDate endDate
  ↔ v ∈ table ∧ LocationPrice.locationId v ∈ locationIds
    ∧ (greatestNotAfter table startDate v
       ∨ startDate ≤ LocationPrice.validFrom v ≤ endDate).
Proof.
  unfold priceQuery.
  rewrite elem_of_remove_dups, elem_of_app,
    pricesValidAtStart_spec, priceChangesWithin_spec. tauto.
Qed.

Lemma greatestNotAfter_exists (table : list LocationPrice.t) (l startDate : Z) :
  (∃ w, w ∈ table ∧ LocationPrice.locationId w = l
        ∧ LocationPrice.validFrom w ≤ startDate) →
  ∃ v, v ∈ table ∧ LocationPrice.locationId v = l
       ∧ greatestNotAfter table startDate v.
Proof.
  intros (w & Hw & Hl & Hs).
  destruct (maxValidFrom table l startDate) as [m|] eqn:Hmax;
    unfold maxValidFrom in Hmax.
  - apply sql_max_Some in Hmax as [Hin Hle].
    apply list_elem_of_fmap in Hin as (v & -> & [[Hvs Hvl] Hv]%list_elem_of_filter).
    exists v. repeat split; [done..|].
    intros u Hu Hul Hus. apply Hle, list_elem_of_fmap. exists u.
    split; [done|]. apply list_elem_of_filter. split; [|done]. split; congruence.
  - apply sql_max_None, fmap_nil_inv in Hmax.
    assert (Hin : w ∈ filter (λ lp2, LocationPrice.validFrom lp2 ≤ startDate
                                     ∧ LocationPrice.locationId lp2 = l) table)
      by (apply list_elem_of_filter; done).
    rewrite Hmax in Hin. by apply not_elem_of_nil in Hin.
Qed.

(** X14: the price query gives a requested location at least one version
    exactly when the location has a version valid from on or before the
    later of the two dates; and whenever it has a version valid from on or
    before [startDate], a version with the greatest such [validFrom] is
    among them, so the price in effect at the start is never missed. A
    location whose first version comes later gets no price at all. *)
Theorem priceQuery_resolves (table : list LocationPrice.t)
    (locationIds : list Z) (startDate endDate l : Z) :
  ((∃ v, v ∈ priceQuery table locationIds startDate endDate
         ∧ LocationPrice.locationId v = l)
   ↔ l ∈ locationIds
     ∧ ∃ w, w ∈ table ∧ LocationPrice.locationId w = l
            ∧ LocationPrice.validFrom w ≤ Z.max startDate endDate)
  ∧ (l ∈ locationIds →
     (∃ w, w ∈ table ∧ LocationPrice.locationId w = l
           ∧ LocationPrice.validFrom w ≤ startDate) →
     ∃ v, v ∈ priceQuery table locationIds startDate endDate
          ∧ LocationPrice.locationId v = l
          ∧ greatestNotAfter table startDate v).
Proof.
  assert (Hstart : l ∈ locationIds →
     (∃ w, w ∈ table ∧ LocationPrice.locationId w = l
           ∧ LocationPrice.validFrom w ≤ startDate) →
     ∃ v, v ∈ priceQuery table locationIds startDate endDate
          ∧ LocationPrice.locationId v = l
          ∧ greatestNotAfter table startDate v).
  { intros Hl (v & Hv & Hvl & Hg)%greatestNotAfter_exists.
    exists v. split; [|done]. apply priceQuery_spec.
    split; [done|]. split; [by rewrite Hvl|by left]. }
  split; [|exact Hstart]. split.
  - intros (v & (Hv & Hl & Hcase)%priceQuery_spec & Hvl). subst l.
    split; [done|]. exists v. split; [done|]. split; [done|].
    destruct Hcase as [[Hs _]|[_ He]]; lia.
  - intros (Hl & w & Hw & Hwl & Hmax).
    destruct (decide (LocationPrice.validFrom w ≤ startDate)) as [Hs|Hs].
    + destruct (Hstart Hl) as (v & Hv & Hvl & _); [by exists w|by exists v].
    + exists w. split; [|done]. apply priceQuery_spec.
      split; [done|]. split; [by rewrite Hwl|]. right. lia.
Qed.

Lemma priceQuery_resolves_witness :
  ∃ v, v ∈ priceQuery (locationPrice januaryDb) [1]
             (19730 * msPerDay) (19740 * msPerDay)
       ∧ LocationPrice.locationId v = 1
       ∧ greatestNotAfter (locationPrice januaryDb) (19730 * msPerDay) v.
Proof.
  apply (priceQuery_resolves (locationPrice januaryDb) [1]
           (19730 * msPerDay) (19740 * msPerDay) 1).
  - left.
  - exists (LocationPrice.mk 1 1 (5095 # 100) (19723 * msPerDay)).
    split; [left|]. split; [reflexivity|]. vm_compute. discriminate.
Defined.

Lemma priceQuery_snoc_same (table : list LocationPrice.t)
    (new : LocationPrice.t) (locationIds : list Z) (startDate endDate : Z) :
  LocationPrice.locationId new ∉ locationIds
  ∨ (startDate < LocationPrice.validFrom new
     ∧ endDate < LocationPrice.validFrom new) →
  priceQuery (table ++ [new]) locationIds startDate endDate
  = priceQuery table locationIds startDate endDate.
Proof.
  intros Hout. unfold priceQuery. f_equal.
  assert (Hmax : ∀ l, l ∈ locationIds →
            maxValidFrom (table ++ [new]) l startDate
            = maxValidFrom table l startDate).
  { intros l Hl. unfold maxValidFrom. rewrite filter_app.
    rewrite (filter_none _ [new]); [by rewrite app_nil_r|].
    intros x ->%list_elem_of_singleton [Hs Hloc].
    destruct Hout as [Hnot|[? ?]]; [|lia]. apply Hnot. by rewrite Hloc. }
  f_equal.
  - unfold pricesValidAtStart. rewrite filter_app.
    rewrite (filter_none _ [new]).
    + rewrite app_nil_r. apply filter_ext_elem_of. intros lp Hlp. split.
      * intros [Heq Hl]. split; [|done]. by rewrite <- Hmax.
      * intros [Heq Hl]. split; [|done]. by rewrite Hmax.
    + intros x ->%list_elem_of_singleton [Heq Hl].
      rewrite Hmax in Heq by done. symmetry in Heq.
      unfold maxValidFrom in Heq. apply sql_max_Some in Heq as [Hin _].
      apply list_elem_of_fmap in Hin as (w & Hvf & [[Hs _] _]%list_elem_of_filter).
      destruct Hout as [Hnot|[? ?]]; [done|lia].
  - unfold priceChangesWithin. rewrite filter_app.
    rewrite (filter_none _ [new]); [by rewrite app_nil_r|].
    intros x ->%list_elem_of_singleton (Hs & He & Hl).
    destruct Hout as [Hnot|[? ?]]; [done|lia].
Qed.

(** X15: [addLocationPrice], with the ownership check passed, returns the
    new version and appends it to the price table, leaving every other
    table as it is; the price query then returns the new version for every
    request of its location whose window holds its [validFrom], and for
    every request that starts on or after its [validFrom] when no version
    of the location is valid from a later date up to the start; the older
    versions it supersedes at the start are returned no longer. *)
Theorem addLocationPrice_visible
    (MyContext : Type) (checkAdminOrOwner : MyContext → Z → option string)
    (context : MyContext) (newLocationPriceId : Z)
    (input : LocationPriceInput.t) (db : Database) :
  checkAdminOrOwner context (LocationPriceInput.locationId input) = None →
  let result := addLocationPrice MyContext checkAdminOrOwner context
                  newLocationPriceId input db in
  let newPrice := LocationPrice.mk newLocationPriceId
                    (LocationPriceInput.locationId input)
                    (LocationPriceInput.price input)
                    (LocationPriceInput.validFrom input) in
  let l := LocationPriceInput.locationId input in
  let validFrom := LocationPriceInput.validFrom input in
  result.1 = Returned newPrice
  ∧ locationPrice result.2 = locationPrice db ++ [newPrice]
  ∧ (storage result.2 = storage db ∧ location result.2 = location db
     ∧ order result.2 = order db ∧ orderRow result.2 = orderRow db)
  ∧ (∀ locationIds startDate endDate,
       l ∈ locationIds → startDate ≤ validFrom ≤ endDate →
       newPrice ∈ priceQuery (locationPrice result.2) locationIds
                    startDate endDate)
  ∧ (∀ locationIds startDate endDate,
       l ∈ locationIds → validFrom ≤ startDate →
       (∀ w, w ∈ locationPrice db → LocationPrice.locationId w = l →
             LocationPrice.validFrom w ≤ startDate →
             LocationPrice.validFrom w ≤ validFrom) →
       newPrice ∈ priceQuery (locationPrice result.2) locationIds
                    startDate endDate
       ∧ ∀ w, w ∈ locationPrice db → LocationPrice.locationId w = l →
              LocationPrice.validFrom w < validFrom →
              LocationPrice.validFrom w < startDate →
              w ∉ priceQuery (locationPrice result.2) locationIds
                    startDate endDate).
Proof.
  intros Hcheck result newPrice l validFrom. subst result.
  unfold addLocationPrice. rewrite Hcheck.
  cbn [LocationPrice_create fst snd catch_rethrow locationPrice storage
       location order orderRow]. fold newPrice.
  split; [done|]. split; [done|]. split; [done|].
  assert (Hnew : newPrice ∈ locationPrice db ++ [newPrice])
    by (apply elem_of_app; right; left).
  split.
  - intros locationIds startDate endDate Hl Hwindow. apply priceQuery_spec.
    split; [done|]. split; [done|]. by right.
  - intros locationIds startDate endDate Hl Hstart Hgreatest. split.
    + apply priceQuery_spec. split; [done|]. split; [done|]. left.
      split; [done|].
      intros w [Hw|Hw]%elem_of_app Hwl Hws; [by apply Hgreatest|].
      apply list_elem_of_singleton in Hw as ->. done.
    + intros w Hw Hwl Hbefore Hearlier (_ & _ & Hcase)%priceQuery_spec.
      destruct Hcase as [[_ Hmax]|[? ?]]; [|lia].
      specialize (Hmax newPrice Hnew (eq_sym Hwl) Hstart).
      unfold newPrice, validFrom in *. cbn [LocationPrice.validFrom] in Hmax.
      lia.
Qed.

Lemma addLocationPrice_visible_witness :
  LocationPrice.mk 2 1 (60 # 1) (19730 * msPerDay)
  ∈ priceQuery
      (locationPrice
         (addLocationPrice unit (λ _ _, None) tt 2
            (LocationPriceInput.mk 1 (60 # 1) (19730 * msPerDay)) januaryDb).2)
      [1] (19723 * msPerDay) (19753 * msPerDay).
Proof.
  destruct (addLocationPrice_visible unit (λ _ _, None) tt 2
              (LocationPriceInput.mk 1 (60 # 1) (19730 * msPerDay)) januaryDb
              eq_refl) as (_ & _ & _ & Hwindow & _).
  apply Hwindow; [left|]. vm_compute. split; discriminate.
Defined.

(** X16: a price added for a location outside the request, or valid from a
    date after both the start and the end of the request, changes nothing
    in the report: the report over a past range is the same after
    [addLocationPrice] as before. *)
Theorem report_unchanged_by_later_price
    (MyContext : Type) (checkAdminOrOwner : MyContext → Z → option string)
    (context : MyContext) (newLocationPriceId : Z)
    (price : LocationPriceInput.t) (input : ReportInput.t) (db : Database) :
  LocationPriceInput.locationId price ∉ ReportInput.locationIds input
  ∨ (ReportInput.startDate input < LocationPriceInput.validFrom price
     ∧ ReportInput.endDate input < LocationPriceInput.validFrom price) →
  ∀ zone,
    report zone input
      (addLocationPrice MyContext checkAdminOrOwner context
         newLocationPriceId price db).2
    = report zone input db.
Proof.
  intros Hout zone. unfold addLocationPrice.
  destruct (checkAdminOrOwner context _); [done|].
  cbn [LocationPrice_create snd].
  unfold report, reportLocations, createDailyReports.
  cbn [location product storage locationPrice].
  by rewrite priceQuery_snoc_same.
Qed.

Lemma report_unchanged_by_later_price_witness :
  report utc januaryInput
    (addLocationPrice unit (λ _ _, None) tt 2
       (LocationPriceInput.mk 1 (60 # 1) (19760 * msPerDay)) januaryDb).2
  = report utc januaryInput januaryDb.
Proof.
  apply report_unchanged_by_later_price. right. vm_compute. done.
Defined.

(** ** The locations and the days of a report *)

(** X17: the report holds one location report for each row of the location
    table whose id is requested, in the order of the table: an id that no
    location has is passed over without an error, an id requested twice is
    reported once, and a request that matches no location returns a report
    without any location report. *)
Theorem report_locations (zone : TimeZone.t) (input : ReportInput.t)
    (db : Database) :
  (λ lr, Location.locationId (LocationReport.location lr))
    <$> reportsOf (report zone input db)
  = Location.locationId
      <$> filter (λ l, Location.locationId l ∈ ReportInput.locationIds input)
                 (location db)
  ∧ (∀ id, id ∉ Location.locationId <$> location db →
           id ∉ (λ lr, Location.locationId (LocationReport.location lr))
                  <$> reportsOf (report zone input db))
  ∧ ((∀ id, id ∈ ReportInput.locationIds input →
            id ∉ Location.locationId <$> location db) →
     report zone input db = Returned (Report.mk [])).
Proof.
  assert (Hids : (λ lr, Location.locationId (LocationReport.location lr))
                   <$> reportsOf (report zone input db)
                 = Location.locationId
                     <$> filter (λ l, Location.locationId l
                                      ∈ ReportInput.locationIds input)
                                (location db)).
  { unfold report, reportsOf. cbn [Report.locationReports].
    rewrite <- list_fmap_compose.
    change ((λ lr, Location.locationId (LocationReport.location lr)) ∘ _)
      with Location.locationId.
    apply reportLocations_locationIds. }
  split; [exact Hids|]. split.
  - intros id Hunknown. rewrite Hids.
    intros (l & -> & [_ Hl]%list_elem_of_filter)%list_elem_of_fmap.
    apply Hunknown. by apply list_elem_of_fmap_2.
  - intros Hnone.
    assert (Hempty : filter (λ l, Location.locationId l
                                  ∈ ReportInput.locationIds input)
                            (location db) = []).
    { apply filter_none. intros l Hl Hid. apply (Hnone _ Hid).
      by apply list_elem_of_fmap_2. }
    unfold report, reportLocations. rewrite Hempty. cbn [fmap list_fmap].
    generalize (priceQuery (locationPrice db) (ReportInput.locationIds input)
                  (ReportInput.startDate input) (ReportInput.endDate input)).
    intros prices. induction prices as [|p prices IH]; [done|exact IH].
Qed.

Lemma report_locations_witness :
  report utc (ReportInput.mk (10 * msPerDay) (12 * msPerDay) [5; 6]) ledgerDb
  = Returned (Report.mk []).
Proof.
  apply (report_locations utc
           (ReportInput.mk (10 * msPerDay) (12 * msPerDay) [5; 6]) ledgerDb).
  intros id Hid Hin. vm_compute in Hin.
  apply list_elem_of_singleton in Hin as ->.
  repeat (apply elem_of_cons in Hid as [Hid|Hid]; [discriminate Hid|]).
  by apply elem_of_nil in Hid.
Defined.

Lemma set_locationPrices_twice (l : Location.t)
    (ps qs : option (list LocationPrice.t)) :
  Location.set_locationPrices (Location.set_locationPrices l ps) qs
  = Location.set_locationPrices l qs.
Proof. reflexivity. Qed.

Lemma pushLocationPrice_withPrices (p : LocationPrice.t)
    (prices : list LocationPrice.t) (locations : list Location.t) :
  NoDup (Location.locationId <$> locations) →
  pushLocationPrice p
    ((λ l, withPrices l
             (filter (λ q, LocationPrice.locationId q = Location.locationId l)
                     prices)) <$> locations)
  = (λ l, withPrices l
            (filter (λ q, LocationPrice.locationId q = Location.locationId l)
                    (prices ++ [p]))) <$> locations.
Proof.
  assert (Hid : ∀ l qs, Location.locationId (withPrices l qs)
                        = Location.locationId l)
    by (intros l [|q qs]; reflexivity).
  induction locations as [|l rest IH]; intros Hnodup; [done|].
  rewrite fmap_cons in Hnodup. apply NoDup_cons in Hnodup as [Hnotin Hnodup].
  rewrite !fmap_cons. cbn [pushLocationPrice]. rewrite Hid, filter_app.
  destruct (decide (Location.locationId l = LocationPrice.locationId p))
    as [Heq|Hne].
  - rewrite (filter_cons_True _ p []) by done. rewrite filter_nil. f_equal.
    + destruct (filter _ prices) as [|q qs]; [done|].
      cbn [withPrices app]. rewrite set_locationPrices_twice.
      cbn [Location.locationPrices Location.set_locationPrices default id].
      by rewrite <- app_assoc.
    + apply list_fmap_ext. intros i l' Hl'. rewrite filter_app.
      rewrite (filter_cons_False _ p []); [by rewrite filter_nil, app_nil_r|].
      intros Hp. apply Hnotin. rewrite Heq, Hp.
      apply list_elem_of_fmap_2. by eapply list_elem_of_lookup_2.
  - rewrite (filter_cons_False _ p []) by congruence.
    rewrite filter_nil, app_nil_r. f_equal. by apply IH.
Qed.

(** X18: when the ids of the location table are pairwise distinct, every
    location of a report carries all the storage rows of the location, and
    on its [locationPrices] exactly the versions the price query returned
    for it, in the order of the query; a location for which the query
    returned nothing keeps the [locationPrices] of its table row. *)
Theorem reportLocations_prices (input : ReportInput.t) (db : Database) :
  NoDup (Location.locationId <$> location db) →
  reportLocations input db
  = (λ l, withPrices
            (Location.set_storages l
               (filter (λ s, Storage.locationId s = Location.locationId l)
                       (storage db)))
            (filter (λ q, LocationPrice.locationId q = Location.locationId l)
                    (priceQuery (locationPrice db)
                       (ReportInput.locationIds input)
                       (ReportInput.startDate input)
                       (ReportInput.endDate input))))
      <$> filter (λ l, Location.locationId l ∈ ReportInput.locationIds input)
                 (location db).
Proof.
  intros Hnodup. unfold reportLocations.
  generalize (priceQuery (locationPrice db) (ReportInput.locationIds input)
                (ReportInput.startDate input) (ReportInput.endDate input)).
  intros prices.
  set (locations :=
         (λ l, Location.set_storages l
                 (filter (λ s, Storage.locationId s = Location.locationId l)
                         (storage db)))
           <$> filter (λ l, Location.locationId l
                            ∈ ReportInput.locationIds input) (location db)).
  assert (Hlocations : NoDup (Location.locationId <$> locations)).
  { unfold locations. rewrite <- list_fmap_compose.
    change (Location.locationId ∘ _) with Location.locationId.
    apply NoDup_fmap_2_strong.
    - intros x y [_ Hx]%list_elem_of_filter [_ Hy]%list_elem_of_filter Hxy.
      apply list_elem_of_lookup_1 in Hx as [i Hi].
      apply list_elem_of_lookup_1 in Hy as [j Hj].
      assert (i = j) as ->; [|congruence].
      eapply NoDup_alt;
        [ exact Hnodup
        | rewrite list_lookup_fmap, Hi; reflexivity
        | rewrite list_lookup_fmap, Hj; cbn; by rewrite Hxy ].
    - apply NoDup_filter. by apply NoDup_fmap_1 in Hnodup. }
  transitivity
    ((λ l, withPrices l
             (filter (λ q, LocationPrice.locationId q = Location.locationId l)
                     prices)) <$> locations).
  - induction prices as [|p prices IH] using rev_ind.
    + cbn [foldl filter list_filter withPrices]. by rewrite list_fmap_id.
    + rewrite foldl_app. cbn [foldl]. rewrite IH.
      by apply pushLocationPrice_withPrices.
  - unfold locations. rewrite <- list_fmap_compose. by apply list_fmap_ext.
Qed.

Lemma reportLocations_prices_witness :
  reportLocations januaryInput januaryDb
  = [ Location.mk 1 "Kuljetus Korhonen" "Address 1" "01600" "Vantaa"
        "Kuljetusliike"
        (Some [LocationPrice.mk 1 1 (5095 # 100) (19723 * msPerDay)])
        (storage januaryDb) ].
Proof.
  rewrite reportLocations_prices; [reflexivity|].
  vm_compute. apply NoDup_singleton.
Defined.

Lemma day_loop_range (startDate endDate : Z) :
  startDate ≤ endDate →
  startDate + Z.of_nat (Z.to_nat ((endDate - startDate) / msPerDay)) * msPerDay
  = endDate - (endDate - startDate) `mod` msPerDay.
Proof.
  intros Hle.
  assert (Hday : 0 < msPerDay) by reflexivity.
  assert (0 ≤ (endDate - startDate) / msPerDay) by (apply Z.div_pos; lia).
  rewrite Z2Nat.id by done.
  pose proof (Z.div_mod (endDate - startDate) msPerDay) as Hdiv. lia.
Qed.

(** X19: on a server whose clock runs in UTC, for any two times with
    [startDate <= endDate] the daily reports are dated [startDate],
    [startDate] + 1 day, ... as long as the date is not after [endDate]: the first report is dated [startDate], the last
    one [endDate] less the part of a day by which the range exceeds whole
    days, and a report dated [endDate] exists only when the range is a
    whole number of days. *)
Theorem createDailyReports_any_time (db : Database) (startDate endDate : Z)
    (location : Location.t) :
  startDate ≤ endDate →
  let dates :=
    DailyReport.date
      <$> createDailyReports utc db startDate endDate location in
  dates = calendarDays startDate endDate
  ∧ head dates = Some startDate
  ∧ last dates = Some (endDate - (endDate - startDate) `mod` msPerDay)
  ∧ (endDate ∈ dates ↔ (endDate - startDate) `mod` msPerDay = 0).
Proof.
  intros Hle dates.
  assert (Hday : 0 < msPerDay) by reflexivity.
  pose proof (day_loop_range startDate endDate Hle) as Hrange.
  pose proof (Z.mod_pos_bound (endDate - startDate) msPerDay Hday) as Hmod.
  assert (Hdates : dates = calendarDays startDate endDate).
  { unfold dates, createDailyReports, calendarDays.
    apply dailyReportsFrom_dates; [apply fixedOffset_utc|].
    rewrite Z.mul_add_distr_r, Z.mul_1_l. lia. }
  assert (Hlast : last dates
                  = Some (endDate - (endDate - startDate) `mod` msPerDay)).
  { rewrite Hdates. unfold calendarDays.
    rewrite seq_S, fmap_app. cbn [fmap list_fmap].
    rewrite last_snoc. f_equal. rewrite Nat.add_0_l. exact Hrange. }
  split; [exact Hdates|]. split; [|split; [exact Hlast|]].
  - rewrite Hdates. unfold calendarDays. cbn [seq fmap list_fmap head].
    f_equal. lia.
  - split.
    + rewrite Hdates. unfold calendarDays.
      intros (i & -> & _)%list_elem_of_fmap.
      replace (startDate + Z.of_nat i * msPerDay - startDate)
        with (Z.of_nat i * msPerDay) by lia.
      apply Z_mod_mult.
    + intros Hwhole. apply last_Some_elem_of.
      rewrite Hlast. f_equal. lia.
Qed.

Lemma createDailyReports_any_time_witness :
  last (DailyReport.date
          <$> createDailyReports utc januaryDb (19723 * msPerDay + 43200000)
                (19725 * msPerDay) (Location.mk 1 "Kuljetus Korhonen"
                   "Address 1" "01600" "Vantaa" "Kuljetusliike" None []))
  = Some (19725 * msPerDay
          - (19725 * msPerDay - (19723 * msPerDay + 43200000)) `mod` msPerDay).
Proof.
  apply (createDailyReports_any_time januaryDb (19723 * msPerDay + 43200000)
           (19725 * msPerDay)).
  vm_compute. discriminate.
Defined.

Lemma sumZ_const {A} (n : Z) (l : list A) :
  sumZ ((λ _, n) <$> l) = n * Z.of_nat (length l).
Proof.
  unfold sumZ. induction l as [|x l IH].
  - cbn. lia.
  - rewrite fmap_cons. cbn [foldr length]. rewrite IH. lia.
Qed.

(** X20: the figures of a report are the same for every location and every
    day: each daily report lists every product of the product table, in the
    order of the table, with 5 pallets and the cost 25, so its totals are 5
    and 25 times the number of products, and the total cost of a location is
    25 times the number of products times the number of its daily reports.
    The storage rows and the prices have no part in them. *)
Theorem report_figures (zone : TimeZone.t) (input : ReportInput.t)
    (db : Database) (lr : LocationReport.t) :
  lr ∈ reportsOf (report zone input db) →
  (∀ dr, dr ∈ LocationReport.dailyReports lr →
         DailyReport.productReports dr
         = (λ product, ProductReport.mk product 5 25) <$> product db
         ∧ DailyReport.totalDailyPallets dr = 5 * Z.of_nat (length (product db))
         ∧ DailyReport.totalDailyCost dr = 25 * Z.of_nat (length (product db)))
  ∧ LocationReport.totalCost lr
    = 25 * Z.of_nat (length (product db))
      * Z.of_nat (length (LocationReport.dailyReports lr)).
Proof.
  intros Hlr.
  destruct (reportsOf_report zone input db lr Hlr) as (location & ->).
  cbn [LocationReport.totalCost LocationReport.dailyReports].
  assert (Hdaily : ∀ dr,
             dr ∈ createDailyReports zone db (ReportInput.startDate input)
                    (ReportInput.endDate input) location →
             DailyReport.productReports dr
             = (λ product, ProductReport.mk product 5 25) <$> product db
             ∧ DailyReport.totalDailyPallets dr
               = 5 * Z.of_nat (length (product db))
             ∧ DailyReport.totalDailyCost dr
               = 25 * Z.of_nat (length (product db))).
  { intros dr Hdr. unfold createDailyReports in Hdr.
    pose proof (dailyReportsFrom_entries zone (ReportInput.endDate input)
                  location
                  (product db) (ReportInput.startDate input)) as Hentries.
    rewrite Forall_forall in Hentries.
    destruct (Hentries dr Hdr) as (Hreports & Hpallets & Hcost).
    unfold createProductReports in Hreports.
    rewrite Hpallets, Hcost, Hreports, <- !list_fmap_compose.
    split; [reflexivity|]. split.
    - apply (sumZ_const 5).
    - apply (sumZ_const 25). }
  split; [exact Hdaily|].
  rewrite foldl_add_sumZ, Z.add_0_l.
  generalize dependent (createDailyReports zone db
                          (ReportInput.startDate input)
                          (ReportInput.endDate input) location).
  intros reports _ Hreports.
  induction reports as [|dr reports IH].
  - cbn. lia.
  - rewrite fmap_cons. unfold sumZ in *. cbn [foldr length].
    rewrite IH by (intros dr' Hdr'; apply Hreports; by right).
    destruct (Hreports dr (list_elem_of_here _ _)) as (_ & _ & ->). lia.
Qed.

Lemma report_figures_witness :
  ∃ lr, lr ∈ reportsOf (report utc januaryInput januaryDb)
        ∧ LocationReport.totalCost lr
          = 25 * Z.of_nat (length (product januaryDb))
            * Z.of_nat (length (LocationReport.dailyReports lr)).
Proof.
  assert (Hlocations :
            reportLocations januaryInput januaryDb
            = [ Location.mk 1 "Kuljetus Korhonen" "Address 1" "01600" "Vantaa"
                  "Kuljetusliike"
                  (Some [LocationPrice.mk 1 1 (5095 # 100) (19723 * msPerDay)])
                  (storage januaryDb) ]) by reflexivity.
  eexists. split; [|apply (report_figures utc januaryInput januaryDb)];
    unfold report, reportsOf; cbn [Report.locationReports];
    rewrite Hlocations; apply list_elem_of_here.
Defined.

(** ** Locations *)

Lemma Location_findByPk_save (u : Location.t) (db : Database) (k : Z) :
  Location_findByPk (Location_save u db) k
  = (λ row, if decide (Location.locationId row = Location.locationId u)
            then u else row) <$> Location_findByPk db k.
Proof.
  unfold Location_findByPk, Location_save. cbn [location].
  apply (findByPk_fmap Location.locationId). intros x. by case_decide.
Qed.

Lemma Location_findByPk_None (db : Database) (k : Z) :
  Location_findByPk db k = None ↔ k ∉ Location.locationId <$> location db.
Proof.
  unfold Location_findByPk. rewrite fmap_None, list_find_None, Forall_forall.
  split.
  - intros Hnone (l & -> & Hl)%list_elem_of_fmap. by apply (Hnone l).
  - intros Hnotin l Hl Hk. apply Hnotin. subst k. by apply list_elem_of_fmap_2.
Qed.

Lemma Location_findByPk_updated (db : Database) (l : Location.t)
    (input : LocationInput.t) (locationId k : Z) :
  Location_findByPk db locationId = Some l →
  Location_findByPk (Location_save (Object_assign l input) db) k
  = if decide (k = locationId) then Some (Object_assign l input)
    else Location_findByPk db k.
Proof.
  intros Hfind. rewrite Location_findByPk_save.
  pose proof (findByPk_key _ _ _ _ Hfind) as [_ Hid].
  cbn [Object_assign Location.locationId]. rewrite Hid.
  destruct (decide (k = locationId)) as [->|Hne].
  - rewrite Hfind. cbn. by rewrite Hid, decide_True.
  - destruct (Location_findByPk db k) as [x|] eqn:Hx; [|done].
    apply findByPk_key in Hx as [_ Hx]. cbn. rewrite decide_False; congruence.
Qed.

(** X21: [updateLocation] of a location that exists returns the location
    with the fields of the input written over its own and rewrites that one
    location: looked up by its id the updated location is found, every
    other id finds what it found before, the ids of the location table stay
    as they are and in their order, and no other table changes. *)
Theorem updateLocation_one_location
    (MyContext : Type) (checkAdminOrOwner : MyContext → Z → option string)
    (context : MyContext) (locationId : Z) (input : LocationInput.t)
    (db : Database) (l : Location.t) :
  checkAdminOrOwner context locationId = None →
  Location_findByPk db locationId = Some l →
  let result :=
    LocationResolvers.updateLocation MyContext checkAdminOrOwner context
      locationId input db in
  result.1 = Returned (Object_assign l input)
  ∧ (∀ k, Location_findByPk result.2 k
          = if decide (k = locationId) then Some (Object_assign l input)
            else Location_findByPk db k)
  ∧ Location.locationId <$> location result.2
    = Location.locationId <$> location db
  ∧ product result.2 = product db
  ∧ storage result.2 = storage db
  ∧ locationPrice result.2 = locationPrice db
  ∧ order result.2 = order db
  ∧ orderRow result.2 = orderRow db.
Proof.
  intros Hcheck Hfind result. unfold result, LocationResolvers.updateLocation.
  rewrite Hcheck, Hfind. cbn [fst snd catch_rethrow].
  split; [reflexivity|]. split; [|split; [|done]].
  - intros k. by apply Location_findByPk_updated.
  - unfold Location_save. cbn [location].
    rewrite <- list_fmap_compose. apply list_fmap_ext. intros i x _. cbn.
    by case_decide.
Qed.

Lemma updateLocation_one_location_witness :
  (LocationResolvers.updateLocation unit (λ _ _, None) tt 1 toCarrier
     (facilityDb 8)).1
  = Returned (Location.mk 1 "Akkukäsittely" "Address 3" "85500" "Nivala"
                "Kuljetusliike" None []).
Proof.
  apply (updateLocation_one_location unit (λ _ _, None) tt 1 toCarrier
           (facilityDb 8)
           (Location.mk 1 "Akkukäsittely" "Address 3" "85500" "Nivala"
              Kasittelylaitos None []));
    reflexivity.
Defined.

(** X22: [updateLocation] changes nothing when it raises: when the check of
    the caller fails its error is raised, and when no location has the id
    the error is 'Failed to update location: Location not found'; in both
    cases the database is left as it was. *)
Theorem updateLocation_refused
    (MyContext : Type) (checkAdminOrOwner : MyContext → Z → option string)
    (context : MyContext) (locationId : Z) (input : LocationInput.t)
    (db : Database) :
  (∀ m, checkAdminOrOwner context locationId = Some m →
        LocationResolvers.updateLocation MyContext checkAdminOrOwner context
          locationId input db
        = (Raised m, db))
  ∧ (checkAdminOrOwner context locationId = None →
     locationId ∉ Location.locationId <$> location db →
     LocationResolvers.updateLocation MyContext checkAdminOrOwner context
       locationId input db
     = (Raised "Failed to update location: Location not found", db))
  ∧ (∀ m, (LocationResolvers.updateLocation MyContext checkAdminOrOwner
             context locationId input db).1 = Raised m →
          (LocationResolvers.updateLocation MyContext checkAdminOrOwner
             context locationId input db).2 = db).
Proof.
  unfold LocationResolvers.updateLocation. repeat split.
  - intros m ->. reflexivity.
  - intros -> Hunknown%Location_findByPk_None. by rewrite Hunknown.
  - intros m. destruct (checkAdminOrOwner context locationId); [done|].
    destruct (Location_findByPk db locationId); [|done].
    cbn. discriminate.
Qed.

Lemma updateLocation_refused_witness :
  LocationResolvers.updateLocation unit (λ _ _, None) tt 5 toCarrier
    (facilityDb 8)
  = (Raised "Failed to update location: Location not found", facilityDb 8).
Proof.
  apply (updateLocation_refused unit (λ _ _, None) tt 5 toCarrier
           (facilityDb 8)); [reflexivity|].
  vm_compute. intros Hin. apply list_elem_of_singleton in Hin.
  discriminate Hin.
Defined.

Lemma Object_assign_twice (l : Location.t) (input : LocationInput.t) :
  Object_assign (Object_assign l input) input = Object_assign l input.
Proof.
  destruct input as [[n|] [a|] [p|] [c|] [t|]]; reflexivity.
Qed.

Lemma Location_save_twice (u : Location.t) (db : Database) :
  Location_save u (Location_save u db) = Location_save u db.
Proof.
  unfold Location_save. cbn [location product storage locationPrice order
                               orderRow storageSeq].
  f_equal. rewrite <- list_fmap_compose. apply list_fmap_ext.
  intros i x _. cbn. repeat case_decide; done.
Qed.

(** X23: [updateLocation] is idempotent: the same update made a second time
    returns what the first returned and leaves the database the first left,
    whether the first succeeded or raised. *)
Theorem updateLocation_twice
    (MyContext : Type) (checkAdminOrOwner : MyContext → Z → option string)
    (context : MyContext) (locationId : Z) (input : LocationInput.t)
    (db : Database) :
  LocationResolvers.updateLocation MyContext checkAdminOrOwner context
    locationId input
    (LocationResolvers.updateLocation MyContext checkAdminOrOwner context
       locationId input db).2
  = LocationResolvers.updateLocation MyContext checkAdminOrOwner context
      locationId input db.
Proof.
  unfold LocationResolvers.updateLocation.
  destruct (checkAdminOrOwner context locationId) as [m|]; [reflexivity|].
  destruct (Location_findByPk db locationId) as [l|] eqn:Hfind.
  - cbn [snd].
    rewrite (Location_findByPk_updated db l input locationId locationId Hfind).
    rewrite decide_True by done.
    by rewrite Object_assign_twice, Location_save_twice.
  - cbn [snd]. by rewrite Hfind.
Qed.

Lemma atFacility_updated (db : Database) (l : Location.t)
    (input : LocationInput.t) (locationId : Z) (s : Storage.t) :
  Location_findByPk db locationId = Some l →
  atFacility (Location_save (Object_assign l input) db) s
  ↔ if decide (Storage.locationId s = locationId)
    then default (Location.locationType l) (LocationInput.locationType input)
         = Kasittelylaitos
    else atFacility db s.
Proof.
  intros Hfind. unfold atFacility.
  rewrite (Location_findByPk_updated db l input locationId _ Hfind).
  destruct (decide (Storage.locationId s = locationId)); [|done].
  cbn. split; [by intros [= ?]|by intros ->].
Qed.

(** X24: what [updateLocation] does to the available storages. An update
    that holds no [locationType] leaves the answer of [availableStorages]
    as it was; an update that gives the location a type other than
    'Käsittelylaitos' takes its stock out of it: no record of the answer
    belongs to the location any more. *)
Theorem updateLocation_availableStorages
    (MyContext : Type) (checkHasRole : MyContext → option string)
    (checkAdminOrOwner : MyContext → Z → option string)
    (context reader : MyContext) (locationId : Z) (input : LocationInput.t)
    (db : Database) (l : Location.t) :
  checkAdminOrOwner context locationId = None →
  Location_findByPk db locationId = Some l →
  let db' :=
    (LocationResolvers.updateLocation MyContext checkAdminOrOwner context
       locationId input db).2 in
  (LocationInput.locationType input = None →
   availableStorages MyContext checkHasRole reader db'
   = availableStorages MyContext checkHasRole reader db)
  ∧ (∀ t, LocationInput.locationType input = Some t → t ≠ Kasittelylaitos →
          ∀ s, s ∈ storagesOf
                     (availableStorages MyContext checkHasRole reader db') →
               Storage.locationId s ≠ locationId).
Proof.
  intros Hcheck Hfind db'.
  assert (Hdb' : db' = Location_save (Object_assign l input) db).
  { unfold db', LocationResolvers.updateLocation. by rewrite Hcheck, Hfind. }
  rewrite Hdb'. clear db' Hdb'. split.
  - intros Htype.
    assert (Hfacility : ∀ s, atFacility
                               (Location_save (Object_assign l input) db) s
                             ↔ atFacility db s).
    { intros s. rewrite (atFacility_updated db l input locationId s Hfind).
      destruct (decide (Storage.locationId s = locationId)) as [Hs|]; [|done].
      rewrite Htype. cbn [default]. unfold atFacility. rewrite Hs, Hfind.
      cbn. split; [by intros ->|by intros [= ?]]. }
    unfold availableStorages.
    destruct (checkHasRole reader); [reflexivity|].
    assert (Hcurrent : currentFacilityStorages
                         (Location_save (Object_assign l input) db)
                       = currentFacilityStorages db).
    { unfold currentFacilityStorages.
      change (storage (Location_save (Object_assign l input) db))
        with (storage db).
      rewrite (filter_ext_elem_of
                 (atFacility (Location_save (Object_assign l input) db))
                 (atFacility db) (storage db)) by (intros; apply Hfacility).
      f_equal. apply filter_ext_elem_of. intros s _.
      by rewrite Hfacility. }
    by rewrite Hcurrent.
  - intros t Htype Hother s Hs Hlocation.
    unfold availableStorages in Hs.
    destruct (checkHasRole reader); [by apply elem_of_nil in Hs|].
    cbn [catch_rethrow storagesOf] in Hs.
    apply list_elem_of_fmap in Hs as (s0 & -> & Hs0).
    apply currentFacilityStorages_spec in Hs0 as (_ & Hfacility & _).
    cbn [Storage_with_palletAmount Storage.locationId] in Hlocation.
    apply (atFacility_updated db l input locationId s0 Hfind) in Hfacility.
    rewrite decide_True, Htype in Hfacility by done. by apply Hother.
Qed.

Lemma updateLocation_availableStorages_witness :
  Forall (λ s, Storage.locationId s ≠ 1)
    (storagesOf
       (availableStorages unit (λ _, None) tt
          (LocationResolvers.updateLocation unit (λ _ _, None) tt 1
             toCarrier (facilityDb 8)).2)).
Proof.
  apply Forall_forall.
  apply (proj2 (updateLocation_availableStorages unit (λ _, None) (λ _ _, None)
                  tt tt 1 toCarrier (facilityDb 8)
                  (Location.mk 1 "Akkukäsittely" "Address 3" "85500" "Nivala"
                     Kasittelylaitos None [])
                  eq_refl eq_refl) "Kuljetusliike");
    [reflexivity|].
  unfold Kasittelylaitos. discriminate.
Defined.

(** X25: the [location] query answers with the location and all its storage
    rows, the earlier ones as well as the current, in the order of the
    table, and with all its prices; a location listed by [allLocations]
    under the same id carries the same storage rows. For an id that no
    location has the error is 'Error retrieving location with ID' and the
    id, in place of the 'not found' error raised inside. *)
Theorem location_query
    (MyContext : Type) (checkHasRole : MyContext → option string)
    (context : MyContext) (locationId : Z) (db : Database) :
  checkHasRole context = None →
  (locationId ∉ Location.locationId <$> location db →
   LocationResolvers.location MyContext checkHasRole context locationId db
   = Raised ("Error retrieving location with ID " +:+ pretty locationId))
  ∧ (locationId ∈ Location.locationId <$> location db →
     ∃ found all,
       LocationResolvers.location MyContext checkHasRole context locationId db
       = Returned found
       ∧ LocationResolvers.allLocations MyContext checkHasRole context db
         = Returned all
       ∧ Location.locationId found = locationId
       ∧ Location.storages found
         = filter (λ s, Storage.locationId s = locationId) (storage db)
       ∧ Location.locationPrices found
         = Some (filter (λ p, LocationPrice.locationId p = locationId)
                        (locationPrice db))
       ∧ ∀ l, l ∈ all → Location.locationId l = locationId →
              Location.storages l = Location.storages found).
Proof.
  intros Hrole.
  unfold LocationResolvers.location, LocationResolvers.allLocations.
  rewrite Hrole. split.
  - intros Hunknown%Location_findByPk_None. by rewrite Hunknown.
  - intros Hknown.
    destruct (Location_findByPk db locationId) as [l|] eqn:Hfind;
      [|by apply Location_findByPk_None in Hfind].
    apply findByPk_key in Hfind as [_ Hid].
    eexists _, _. cbn [catch_rethrow].
    split; [reflexivity|]. split; [reflexivity|].
    split; [exact Hid|]. split; [reflexivity|]. split; [reflexivity|].
    intros l' (l0 & -> & _)%list_elem_of_fmap Hl0.
    cbn in Hl0 |- *. by rewrite Hl0.
Qed.

Lemma location_query_witness :
  LocationResolvers.location unit (λ _, None) tt 5 (facilityDb 8)
  = Raised "Error retrieving location with ID 5".
Proof.
  apply (location_query unit (λ _, None) tt 5 (facilityDb 8)); [reflexivity|].
  vm_compute. intros Hin. apply list_elem_of_singleton in Hin.
  discriminate Hin.
Defined.

Lemma filter_key_cons {A} (key : A → Z) (k : Z) (ks : list Z) (l : list A) :
  k ∉ ks →
  filter (λ x, key x ∈ k :: ks) l
  ≡ₚ filter (λ x, key x = k) l ++ filter (λ x, key x ∈ ks) l.
Proof.
  intros Hk. induction l as [|a l IH]; [done|].
  rewrite !filter_cons.
  destruct (decide (key a = k)) as [Ha|Ha].
  - rewrite decide_True by (rewrite Ha; left).
    rewrite decide_False by (by rewrite Ha).
    cbn [app]. by rewrite IH.
  - destruct (decide (key a ∈ ks)) as [Hin|Hnotin].
    + rewrite decide_True by (by right).
      rewrite IH. apply Permutation_middle.
    + rewrite decide_False; [exact IH|].
      intros [?|?]%elem_of_cons; done.
Qed.

Lemma concat_filter_keys {A} (key : A → Z) (ks : list Z) (l : list A) :
  NoDup ks →
  concat ((λ k, filter (λ x, key x = k) l) <$> ks)
  ≡ₚ filter (λ x, key x ∈ ks) l.
Proof.
  induction 1 as [|k ks Hk _ IH].
  - cbn [fmap list_fmap concat]. symmetry. apply Permutation_nil_r.
    apply filter_none. intros x _ Hx. by apply elem_of_nil in Hx.
  - rewrite fmap_cons. cbn [concat]. rewrite IH.
    symmetry. by apply filter_key_cons.
Qed.

(** X26: when the ids of the location table are pairwise distinct,
    [allLocations] lists the locations of the table in its order and deals
    the storage rows out among them: the storage rows of all the listed
    locations together are the storage rows that belong to a location of
    the table, each one once. *)
Theorem allLocations_storages
    (MyContext : Type) (checkHasRole : MyContext → option string)
    (context : MyContext) (db : Database) :
  checkHasRole context = None →
  NoDup (Location.locationId <$> location db) →
  ∃ all,
    LocationResolvers.allLocations MyContext checkHasRole context db
    = Returned all
    ∧ Location.locationId <$> all = Location.locationId <$> location db
    ∧ concat (Location.storages <$> all)
      ≡ₚ filter (λ s, Storage.locationId s
                      ∈ Location.locationId <$> location db) (storage db).
Proof.
  intros Hrole Hnodup. unfold LocationResolvers.allLocations.
  rewrite Hrole. eexists. cbn [catch_rethrow].
  split; [reflexivity|]. split.
  - rewrite <- list_fmap_compose. by apply list_fmap_ext.
  - rewrite <- (concat_filter_keys Storage.locationId _ _ Hnodup).
    by rewrite <- !list_fmap_compose.
Qed.

Lemma allLocations_storages_witness :
  ∃ all,
    LocationResolvers.allLocations unit (λ _, None) tt twoFacilitiesDb
    = Returned all
    ∧ Location.locationId <$> all
      = Location.locationId <$> location twoFacilitiesDb
    ∧ concat (Location.storages <$> all)
      ≡ₚ filter (λ s, Storage.locationId s
                      ∈ Location.locationId <$> location twoFacilitiesDb)
                (storage twoFacilitiesDb).
Proof.
  apply (allLocations_storages unit (λ _, None) tt twoFacilitiesDb);
    [reflexivity|].
  vm_compute. apply NoDup_cons. split.
  - intros Hin. apply list_elem_of_singleton in Hin. discriminate Hin.
  - apply NoDup_singleton.
Defined.
